(** * The button memory game of [js/script.js], as a state machine

    The script wires a [GameManager] to the page: a click on Go runs
    [initGame], the async [playGame] shows the numbered buttons, hides the
    numbers, moves the buttons around between timed pauses and finally
    attaches the click listeners that run [checkClick].

    The embedding keeps the names of the source.  JavaScript values are
    modelled as follows.
    - A string is the list of its UTF-16 code units ([list N]).
    - A number produced by [parseInt] is [NaN] or an integer ([Num z]).  The
      double that [parseInt] returns is the nearest one to that integer;
      rounding is monotone and leaves small integers alone, so the
      comparisons with 3 and 7 made by the validator are those of [z].
      Negative zero is [Num 0].
    - [Math.random()] is a rational of [[0,1)] taken from a stream handed
      to each event; products with it are computed exactly.
    - The suspended [playGame] coroutine is a [Task] stored with the delay
      of the [setTimeout] it waits for.  Timers may fire in any order.
    - The page is not part of the sources: the input field holds any
      string, and the message area is taken to be empty on load. *)

From Stdlib Require Import String Ascii Bool ZArith NArith QArith Qround List
  Permutation Lia Lqa.
Import ListNotations.

Local Open Scope Z_scope.

(** ** Strings: [String.prototype.trim] and [parseInt] *)

Module JS.

Definition jsstring := list N.

(** Code units of a literal (ASCII) string. *)
Fixpoint str (s : string) : jsstring :=
  match s with
  | EmptyString => []
  | String c r => N_of_ascii c :: str r
  end.

(** WhiteSpace and LineTerminator code points of ECMAScript: the ones
    removed by [trim] and skipped by [parseInt]. *)
Definition isWhiteSpace (c : N) : bool :=
  ((9 <=? c) && (c <=? 13) || (c =? 32) || (c =? 160) || (c =? 5760)
   || (8192 <=? c) && (c <=? 8202) || (c =? 8232) || (c =? 8233)
   || (c =? 8239) || (c =? 8287) || (c =? 12288) || (c =? 65279))%N.

Fixpoint trimStart (s : jsstring) : jsstring :=
  match s with
  | [] => []
  | c :: r => if isWhiteSpace c then trimStart r else s
  end.

Definition trimEnd (s : jsstring) : jsstring := rev (trimStart (rev s)).

Definition trim (s : jsstring) : jsstring := trimEnd (trimStart s).

Inductive number := NaN | Num (z : Z).

(** Value of a code unit as a digit: 0-9, then a-z and A-Z for 10-35. *)
Definition digitValue (c : N) : option Z :=
  if ((48 <=? c) && (c <=? 57))%N then Some (Z.of_N c - 48)
  else if ((97 <=? c) && (c <=? 122))%N then Some (Z.of_N c - 87)
  else if ((65 <=? c) && (c <=? 90))%N then Some (Z.of_N c - 55)
  else None.

Definition radixDigit (R : Z) (c : N) : option Z :=
  match digitValue c with
  | Some d => if d <? R then Some d else None
  | None => None
  end.

(** The longest prefix of radix-[R] digits, as digit values. *)
Fixpoint digitPrefix (R : Z) (s : jsstring) : list Z :=
  match s with
  | [] => []
  | c :: r =>
      match radixDigit R c with
      | Some d => d :: digitPrefix R r
      | None => []
      end
  end.

Definition mathInt (R : Z) (ds : list Z) : Z :=
  fold_left (fun acc d => acc * R + d) ds 0.

(** A leading [-] or [+] is read and removed. *)
Definition stripSign (s : jsstring) : Z * jsstring :=
  match s with
  | c :: r =>
      if (c =? 45)%N then (-1, r)
      else if (c =? 43)%N then (1, r)
      else (1, s)
  | [] => (1, s)
  end.

(** With no radix argument the radix is 10, or 16 after [0x] or [0X],
    which is removed. *)
Definition stripPrefix (s : jsstring) : Z * jsstring :=
  match s with
  | c0 :: c1 :: r =>
      if ((c0 =? 48) && ((c1 =? 120) || (c1 =? 88)))%N then (16, r)
      else (10, s)
  | _ => (10, s)
  end.

(** [parseInt(string)]: skip white space, read the sign and the radix
    prefix, and read digits up to the first code unit that is not one. *)
Definition parseInt (input : jsstring) : number :=
  let (sign, s1) := stripSign (trimStart input) in
  let (R, s2) := stripPrefix s1 in
  match digitPrefix R s2 with
  | [] => NaN
  | ds => Num (sign * mathInt R ds)
  end.

End JS.

Import JS.

(** ** Constants of [lang/messages/en/user.js] *)

Module MESSAGES.
Definition WIN : string := "Excellent Memory!".
Definition LOSE : string := "Wrong Order!".
Definition START : string := "Scrambling buttons ....".
Definition WRONG_INPUT_TYPE : string :=
  "Please ensure you enter a number from 3 to 7!".
Definition NOT_IN_RANGE : string :=
  "Number is not in range, please enter a number from 3 to 7!".
Definition GAME_STARTED : string := "Guess the correct order of the buttons".
End MESSAGES.

Module STYLE_CONFIG.
Definition BUTTON_COLORS : list string :=
  ["red"; "blue"; "green"; "yellow"; "orange"; "lime"; "pink"]%string.
Definition BUTTON_WIDTH : string := "10em".
Definition BUTTON_HEIGHT : string := "5em".
Definition MARGIN : string := "5px".
Definition EDGE_MARGIN : Z := 10.
End STYLE_CONFIG.

(** ** Numbers and values *)

(** What a caller can hand to [checkInput]: [null], [undefined] or a
    number. *)
Inductive jsvalue := Null | Undefined | Number (x : number).

Definition isNaN (x : number) : bool :=
  match x with NaN => true | Num _ => false end.

(** [a < b] on numbers: false as soon as one side is [NaN]. *)
Definition lessThan (a b : number) : bool :=
  match a, b with
  | Num x, Num y => x <? y
  | _, _ => false
  end.

Definition multiply (a b : number) : number :=
  match a, b with
  | Num x, Num y => Num (x * y)
  | _, _ => NaN
  end.

(** Iterations of [for (let i = 0; i < n; i++)]. *)
Definition iterations (n : number) : nat :=
  match n with
  | NaN => 0%nat
  | Num z => Z.to_nat z
  end.

(** ** Buttons *)

(** The one kind of click listener of the script: the closure
    [() => this.checkClick(button)] of [memoryTest]. *)
Inductive Handler := CheckClick.

(** A [GameButton] with the parts of its DOM element that the script reads
    or writes.  [textContent] is [None] for the empty text and [Some k] when
    the number [k] is shown; [location] is [None] while the button is in the
    normal flow and [Some (x, y)] once [left] and [top] are set; [onclick] is
    the handler property and [listeners] holds what [addEventListener]
    registered, in order.  Colour is [None] for [undefined]. *)
Record GameButton := mkButton {
  id : nat;
  color : option string;
  textContent : option nat;
  location : option (Q * Q);
  onclick : option Handler;
  listeners : list Handler
}.

Definition newGameButton (i : nat) (c : option string) : GameButton :=
  mkButton i c None None None [].

Definition set_textContent (t : option nat) (b : GameButton) : GameButton :=
  mkButton (id b) (color b) t (location b) (onclick b) (listeners b).

Definition set_onclick (h : option Handler) (b : GameButton) : GameButton :=
  mkButton (id b) (color b) (textContent b) (location b) h (listeners b).

Definition addEventListener (h : Handler) (b : GameButton) : GameButton :=
  mkButton (id b) (color b) (textContent b) (location b) (onclick b)
           (listeners b ++ [h]).

Definition showNumber (b : GameButton) : GameButton :=
  set_textContent (Some (id b + 1)%nat) b.

Definition hideNumber (b : GameButton) : GameButton :=
  set_textContent None b.

Definition setLocation (x y : Q) (b : GameButton) : GameButton :=
  mkButton (id b) (color b) (textContent b) (Some (x, y)) (onclick b)
           (listeners b).

(** ** The game manager *)

(** Where a [playGame(userValue)] call is suspended: at the pause that
    shows the numbers, or at the pause that ends iteration [i] of the loop
    of [scrambleButtons(times)], which read [btnWidth] and [btnHeight] when
    it started. *)
Inductive Task :=
| AfterShow (userValue : number)
| InScramble (times : number) (i : nat) (btnWidth btnHeight : Z).

(** A [setTimeout] that has not fired yet. *)
Record Timer := mkTimer { delay : number; task : Task }.

(** [buttons] is [buttonManager.buttons], which is also the content of the
    button area: both are filled and emptied together. *)
Record GameManager := mkGame {
  buttons : list GameButton;
  messageArea : string;
  gameInProgress : bool;
  clickedOrder : list nat;
  ogOrder : list nat;
  timers : list Timer
}.

Definition set_buttons (bs : list GameButton) (g : GameManager) :=
  mkGame bs (messageArea g) (gameInProgress g) (clickedOrder g) (ogOrder g)
         (timers g).
Definition set_gameInProgress (p : bool) (g : GameManager) :=
  mkGame (buttons g) (messageArea g) p (clickedOrder g) (ogOrder g) (timers g).
Definition set_clickedOrder (l : list nat) (g : GameManager) :=
  mkGame (buttons g) (messageArea g) (gameInProgress g) l (ogOrder g)
         (timers g).
Definition set_ogOrder (l : list nat) (g : GameManager) :=
  mkGame (buttons g) (messageArea g) (gameInProgress g) (clickedOrder g) l
         (timers g).
Definition set_timers (ts : list Timer) (g : GameManager) :=
  mkGame (buttons g) (messageArea g) (gameInProgress g) (clickedOrder g)
         (ogOrder g) ts.

(** The manager built on [DOMContentLoaded]. *)
Definition newGameManager : GameManager := mkGame [] "" false [] [] [].

(** *** Messenger *)

Definition displayMessage (message : string) (g : GameManager) :=
  mkGame (buttons g) message (gameInProgress g) (clickedOrder g) (ogOrder g)
         (timers g).

Definition clearMessage (g : GameManager) := displayMessage "" g.

(** *** Validator *)

Definition checkInput (input : jsvalue) (g : GameManager)
  : bool * GameManager :=
  match input with
  | Null | Undefined => (false, displayMessage MESSAGES.WRONG_INPUT_TYPE g)
  | Number x =>
      if isNaN x then (false, displayMessage MESSAGES.WRONG_INPUT_TYPE g)
      else if lessThan x (Num 3) || lessThan (Num 7) x
           then (false, displayMessage MESSAGES.NOT_IN_RANGE g)
           else (true, g)
  end.

(** *** ButtonManager *)

(** [a.splice(idx, 1)]. *)
Definition splice1 {A} (idx : nat) (a : list A) : list A :=
  firstn idx a ++ skipn (S idx) a.

(** [Math.floor(r * len)] for a draw [r] of [Math.random()]. *)
Definition randomIndex (r : Q) (len : nat) : nat :=
  Z.to_nat (Qfloor (r * inject_Z (Z.of_nat len))).

(** The loop of [makeButton] from counter [i], with [count] iterations
    left; iteration [i] uses the draw [rnd i]. *)
Fixpoint makeButtonLoop (count i : nat) (rnd : nat -> Q)
    (availableColors : list string) (bs : list GameButton)
  : list GameButton :=
  match count with
  | O => bs
  | S count' =>
      let randomIdx := randomIndex (rnd i) (length availableColors) in
      let btnColor := nth_error availableColors randomIdx in
      let availableColors' := splice1 randomIdx availableColors in
      let newButton := newGameButton i btnColor in
      makeButtonLoop count' (S i) rnd availableColors'
                     (bs ++ [showNumber newButton])
  end.

Definition makeButton (btnNum : number) (rnd : nat -> Q) (g : GameManager) :=
  set_buttons
    (makeButtonLoop (iterations btnNum) 0 rnd STYLE_CONFIG.BUTTON_COLORS
                    (buttons g)) g.

Definition clearButtons (g : GameManager) := set_buttons [] g.

(** *** GameManager *)

(** What the browser reports when the script reads it: the inner size of
    the window and the laid-out size of the first button. *)
Record Browser := mkBrowser {
  innerWidth : Z;
  innerHeight : Z;
  offsetWidth : Z;
  offsetHeight : Z
}.

(** [pause(ms)] awaited by a coroutine: the timer is registered and the
    coroutine is parked behind it. *)
Definition pause (ms : number) (k : Task) (g : GameManager) :=
  set_timers (timers g ++ [mkTimer ms k]) g.

(** The part of [playGame] that runs before its first [await]. *)
Definition playGame (userValue : number) (g : GameManager) :=
  let g := set_ogOrder (map id (buttons g)) g in
  let g := set_clickedOrder [] g in
  pause (multiply userValue (Num 1000)) (AfterShow userValue) g.

Definition initGame (value : jsstring) (rnd : nat -> Q) (g : GameManager) :=
  let g :=
    if gameInProgress g then
      let g := clearButtons g in
      let g := clearMessage g in
      let g := set_ogOrder [] g in
      let g := set_clickedOrder [] g in
      set_gameInProgress false g
    else g in
  let userValue := parseInt (trim value) in
  let (ok, g) := checkInput (Number userValue) g in
  if ok then
    let g := makeButton userValue rnd g in
    let g := displayMessage MESSAGES.START g in
    let g := set_gameInProgress true g in
    playGame userValue g
  else g.

(** One pass of the [forEach] of [scrambleButtons]: the [k]-th button
    takes the draws [rnd (2k)] and [rnd (2k+1)]. *)
Fixpoint relocate (env : Browser) (btnWidth btnHeight : Z) (rnd : nat -> Q)
    (k : nat) (bs : list GameButton) : list GameButton :=
  match bs with
  | [] => []
  | button :: rest =>
      let margin := STYLE_CONFIG.EDGE_MARGIN in
      let maxX := innerWidth env - btnWidth - margin in
      let maxY := innerHeight env - btnHeight - margin in
      let x := (inject_Z margin + rnd k * inject_Z (maxX - margin))%Q in
      let y := (inject_Z margin + rnd (S k) * inject_Z (maxY - margin))%Q in
      setLocation x y button
        :: relocate env btnWidth btnHeight rnd (S (S k)) rest
  end.

Definition memoryTest (g : GameManager) :=
  let g := displayMessage MESSAGES.GAME_STARTED g in
  set_buttons
    (map (fun button => addEventListener CheckClick (set_onclick None button))
         (buttons g)) g.

(** The loop of [scrambleButtons] entered at its test with counter [i]:
    either one more pass and a pause of 2000 ms, or the loop is over, the
    call returns and [playGame] goes on with [memoryTest]. *)
Definition scrambleLoop (times : number) (i : nat) (btnWidth btnHeight : Z)
    (env : Browser) (rnd : nat -> Q) (g : GameManager) :=
  if lessThan (Num (Z.of_nat i)) times then
    let g := set_buttons
               (relocate env btnWidth btnHeight rnd 0 (buttons g)) g in
    pause (Num 2000) (InScramble times i btnWidth btnHeight) g
  else memoryTest g.

(** A coroutine goes on after its timer has fired.  [scrambleButtons]
    reads [buttons[0].buttonObj]: with no button that throws and the
    coroutine ends there. *)
Definition resume (t : Task) (env : Browser) (rnd : nat -> Q)
    (g : GameManager) :=
  match t with
  | AfterShow userValue =>
      let g := set_buttons (map hideNumber (buttons g)) g in
      match buttons g with
      | [] => g
      | _ :: _ =>
          scrambleLoop userValue 0 (offsetWidth env) (offsetHeight env)
                       env rnd g
      end
  | InScramble times i btnWidth btnHeight =>
      scrambleLoop times (S i) btnWidth btnHeight env rnd g
  end.

(** [l] with [f] applied to its [i]-th element. *)
Fixpoint update {A} (i : nat) (f : A -> A) (l : list A) : list A :=
  match l, i with
  | [], _ => []
  | x :: r, O => f x :: r
  | x :: r, S j => x :: update j f r
  end.

Definition sameId (i : nat) (expected : option nat) : bool :=
  match expected with
  | Some e => Nat.eqb i e
  | None => false
  end.

(** [checkClick(button)] for the button at index [i] of the button area;
    the closure holds the very object that sits in [buttons]. *)
Definition checkClick (i : nat) (g : GameManager) :=
  match nth_error (buttons g) i with
  | None => g
  | Some button =>
      let expected := nth_error (ogOrder g) (length (clickedOrder g)) in
      if sameId (id button) expected then
        let g := set_buttons (update i showNumber (buttons g)) g in
        let g := set_clickedOrder (clickedOrder g ++ [id button]) g in
        if Nat.eqb (length (clickedOrder g)) (length (ogOrder g))
        then displayMessage MESSAGES.WIN g
        else g
      else
        let g := displayMessage MESSAGES.LOSE g in
        let g := set_buttons (map showNumber (buttons g)) g in
        set_buttons (map (set_onclick None) (buttons g)) g
  end.

Definition invoke (i : nat) (g : GameManager) (h : Handler) :=
  match h with CheckClick => checkClick i g end.

(** Handlers that a click on [b] runs: the [onclick] property, then the
    registered listeners. *)
Definition handlers (b : GameButton) : list Handler :=
  match onclick b with
  | Some h => h :: listeners b
  | None => listeners b
  end.

Definition click (i : nat) (g : GameManager) :=
  match nth_error (buttons g) i with
  | None => g
  | Some b => fold_left (invoke i) (handlers b) g
  end.

Definition timeout (k : nat) (env : Browser) (rnd : nat -> Q)
    (g : GameManager) :=
  match nth_error (timers g) k with
  | None => g
  | Some t => resume (task t) env rnd (set_timers (splice1 k (timers g)) g)
  end.

(** What happens on the page: Go is clicked with [value] in the input
    field, the [k]-th pending timer fires, or the [i]-th button of the
    button area is clicked.  [rnd] is the stream of [Math.random()] draws
    that the event uses. *)
Inductive Event :=
| Go (value : jsstring) (rnd : nat -> Q)
| Timeout (k : nat) (env : Browser) (rnd : nat -> Q)
| Click (i : nat).

Definition step (g : GameManager) (e : Event) : GameManager :=
  match e with
  | Go value rnd => initGame value rnd g
  | Timeout k env rnd => timeout k env rnd g
  | Click i => click i g
  end.

Definition run (es : list Event) (g : GameManager) : GameManager :=
  fold_left step es g.

(** States that the page can be in. *)
Inductive reachable : GameManager -> Prop :=
| reachable_new : reachable newGameManager
| reachable_step g e : reachable g -> reachable (step g e).

(** ** Vocabulary of the statements *)

Definition allWhiteSpace (s : jsstring) : Prop :=
  Forall (fun c => isWhiteSpace c = true) s.

(** No code unit that follows, or one that is not a decimal digit. *)
Definition noDigitAhead (s : jsstring) : Prop :=
  match s with
  | [] => True
  | c :: _ => radixDigit 10 c = None
  end.

(** The code unit of the decimal digit [d]. *)
Definition digit (d : Z) : N := Z.to_N (48 + d).

(** The strings with a numeric prefix: white space, an optional plus sign, zeros, one
    digit [d] and anything that does not go on with a digit. *)
Definition prefixed (ws : jsstring) (plus : bool) (zeros : nat) (d : Z)
    (rest : jsstring) : jsstring :=
  ws ++ (if plus then [43%N] else []) ++ repeat 48%N zeros ++ digit d :: rest.

(** Draws of [Math.random()] lie in [[0,1)]. *)
Definition unitDraws (rnd : nat -> Q) : Prop :=
  forall j, (0 <= rnd j /\ rnd j < 1)%Q.

(** The number of a button is shown. *)
Definition numberVisible (b : GameButton) : Prop :=
  textContent b = Some (id b + 1)%nat.

(** A button as the constructor and [showNumber] leave it. *)
Definition fresh (b : GameButton) : Prop :=
  numberVisible b /\ location b = None /\ onclick b = None
  /\ listeners b = [].

(** The button sits at a point whose coordinates lie between the margin
    and the last place where the button still fits, on each axis. *)
Definition withinViewport (env : Browser) (btnWidth btnHeight : Z)
    (b : GameButton) : Prop :=
  exists x y, location b = Some (x, y)
    /\ (inject_Z STYLE_CONFIG.EDGE_MARGIN <= x
        /\ x <= inject_Z (innerWidth env - btnWidth - STYLE_CONFIG.EDGE_MARGIN))%Q
    /\ (inject_Z STYLE_CONFIG.EDGE_MARGIN <= y
        /\ y <= inject_Z (innerHeight env - btnHeight - STYLE_CONFIG.EDGE_MARGIN))%Q.

(** The parsed value is not a number, or an integer outside 3..7. *)
Definition invalid (x : number) : Prop :=
  x = NaN \/ exists z, x = Num z /\ (z < 3 \/ 7 < z).

(** The message of the validator for a rejected value. *)
Definition rejection (x : number) : string :=
  match x with
  | NaN => MESSAGES.WRONG_INPUT_TYPE
  | Num _ => MESSAGES.NOT_IN_RANGE
  end.

(** What [initGame] does first when a game is in progress. *)
Definition cleared (g : GameManager) : GameManager :=
  mkGame [] "" false [] [] (timers g).

(** What holds of every state the page can reach: without a game in
    progress there is no button; the recorded original order is the ids of
    the buttons, which count up from 0; the clicks recorded so far are the
    start of the original order. *)
Definition invariant (g : GameManager) : Prop :=
  (gameInProgress g = false -> buttons g = [])
  /\ ogOrder g = map id (buttons g)
  /\ map id (buttons g) = seq 0 (length (buttons g))
  /\ exists rest, ogOrder g = clickedOrder g ++ rest.

(** The timer at the head of the queue fires, in the window [fst f] and
    with the draws [snd f]. *)
Definition fire (f : Browser * (nat -> Q)) : Event :=
  Timeout 0 (fst f) (snd f).

(** The button has been given a position. *)
Definition located (b : GameButton) : Prop :=
  exists x y, location b = Some (x, y).

(** A click on a button of [g] runs nothing. *)
Definition noHandlers (g : GameManager) : Prop :=
  Forall (fun b => handlers b = []) (buttons g).

(** The round started in [g0] after pass [j] of its scrambling loop, made
    in the window [env] with the draws [r]: the numbers are hidden, every
    button has been moved, and the coroutine waits 2000 ms. *)
Definition scrambling (g0 : GameManager) (n : Z) (j : nat) (w h : Z)
    (env : Browser) (r : nat -> Q) : GameManager :=
  mkGame (relocate env w h r 0 (map hideNumber (buttons g0)))
         (messageArea g0) (gameInProgress g0) (clickedOrder g0) (ogOrder g0)
         [mkTimer (Num 2000) (InScramble (Num n) j w h)].

(** The guessing game is on: the original order is the ids of the buttons,
    counting from 0, nothing is recorded yet, and a click on a button runs
    [checkClick] once. *)
Definition recallReady (g : GameManager) : Prop :=
  ogOrder g = seq 0 (length (buttons g))
  /\ map id (buttons g) = seq 0 (length (buttons g))
  /\ clickedOrder g = []
  /\ Forall (fun b => handlers b = [CheckClick]) (buttons g).

(** ** Concrete inputs *)

(** Streams of draws: always one half, always zero. *)
Definition half : nat -> Q := fun _ => (1 # 2)%Q.
Definition zero : nat -> Q := fun _ => 0%Q.

(** A window of 800 by 600 and one that is narrower than a button, with
    buttons laid out at 160 by 80. *)
Definition desktop : Browser := mkBrowser 800 600 160 80.
Definition narrow : Browser := mkBrowser 100 600 160 80.

(** A round of three buttons taken up to the guessing game: Go with the
    value 3, then the four timers of the round. *)
Definition recall3 : GameManager :=
  run [Go (str "3") half; Timeout 0 desktop half; Timeout 0 desktop half;
       Timeout 0 desktop half; Timeout 0 desktop half] newGameManager.

(** A restart in the middle of a round: Go with 3, Go with 7 just before
    the first timer of the first round fires, then the four timers of the
    first round (due 3, 5, 7 and 9 seconds after the first Go, all before
    the display pause of the second round is over). *)
Definition restarted : GameManager :=
  run [Go (str "3") half; Go (str "7") half;
       Timeout 0 desktop half; Timeout 1 desktop half;
       Timeout 1 desktop half; Timeout 1 desktop half] newGameManager.

(** ** More vocabulary *)

(** The field holds white space, the decimal digits [ds] and then [rest]. *)
Definition decimal (ws : jsstring) (ds : list Z) (rest : jsstring)
  : jsstring :=
  ws ++ map digit ds ++ rest.

(** [rest] does not turn a lone [0] into the radix prefix [0x] or [0X]. *)
Definition noRadixMark (ds : list Z) (rest : jsstring) : Prop :=
  ds = [0] ->
  match rest with
  | c :: _ => c <> 120%N /\ c <> 88%N
  | [] => True
  end.

(** The texts that the script ever puts in the message area. *)
Definition knownMessage (m : string) : Prop :=
  In m [""%string; MESSAGES.WIN; MESSAGES.LOSE; MESSAGES.START;
        MESSAGES.WRONG_INPUT_TYPE; MESSAGES.NOT_IN_RANGE;
        MESSAGES.GAME_STARTED].

(** A pending timer of a round of [n] buttons, [n] from 3 to 7: the display
    pause of [n] seconds, or a pause of 2 seconds after pass [i < n]. *)
Definition timerOfRound (t : Timer) : Prop :=
  exists n, 3 <= n <= 7 /\
    match task t with
    | AfterShow userValue =>
        userValue = Num n /\ delay t = Num (n * 1000)
    | InScramble times i _ _ =>
        times = Num n /\ (i < Z.to_nat n)%nat /\ delay t = Num 2000
    end.

(** The button has the one listener of [memoryTest] and no [onclick]
    handler. *)
Definition attachedOnce (b : GameButton) : Prop :=
  onclick b = None /\ listeners b = [CheckClick].

(** No code unit that follows, or one that is not a hexadecimal digit. *)
Definition noHexDigitAhead (s : jsstring) : Prop :=
  match s with
  | [] => True
  | c :: _ => radixDigit 16 c = None
  end.

(** The field holds white space, [0x] or [0X] (the code unit [x]), the
    digit [d] and then [rest]. *)
Definition hexadecimal (ws : jsstring) (x : N) (d : Z) (rest : jsstring)
  : jsstring :=
  ws ++ 48%N :: x :: digit d :: rest.

(** The [k]-th pending timer fires, in the window [env] and with the
    draws [rnd]. *)
Definition fireAt (f : nat * Browser * (nat -> Q)) : Event :=
  let '(k, env, rnd) := f in Timeout k env rnd.


(** What can happen while a round runs on its own: its timer fires, or the
    button at some index is clicked. *)
Definition roundEvent (e : Browser * (nat -> Q) + nat) : Event :=
  match e with
  | inl f => fire f
  | inr i => Click i
  end.

(** The timer firings among such events. *)
Fixpoint firesOf (es : list (Browser * (nat -> Q) + nat))
  : list (Browser * (nat -> Q)) :=
  match es with
  | [] => []
  | inl f :: r => f :: firesOf r
  | inr _ :: r => firesOf r
  end.

(** * Properties *)

(** ** Parsing the input field *)

Example parseInt_5 : parseInt (trim (str "5")) = Num 5.
Proof. reflexivity. Qed.
Example parseInt_abc : parseInt (trim (str "abc")) = NaN.
Proof. reflexivity. Qed.
Example parseInt_empty : parseInt (trim (str "")) = NaN.
Proof. reflexivity. Qed.
Example parseInt_negative : parseInt (trim (str " -4")) = Num (-4).
Proof. reflexivity. Qed.
Example parseInt_hex : parseInt (trim (str "0x10")) = Num 16.
Proof. reflexivity. Qed.
Example parseInt_10 : parseInt (trim (str "10 ")) = Num 10.
Proof. reflexivity. Qed.
Example parseInt_3abc : parseInt (trim (str "  3abc ")) = Num 3.
Proof. reflexivity. Qed.
Example parseInt_7_9 : parseInt (trim (str "7.9")) = Num 7.
Proof. reflexivity. Qed.

Lemma trimStart_skip ws s : allWhiteSpace ws -> trimStart (ws ++ s) = trimStart s.
Proof.
  induction 1 as [|c ws Hc _ IH]; simpl; [reflexivity|].
  now rewrite Hc.
Qed.

Lemma trimStart_keep c s : isWhiteSpace c = false -> trimStart (c :: s) = c :: s.
Proof. intros H; simpl; now rewrite H. Qed.

Lemma trimStart_app a c b :
  isWhiteSpace c = false -> trimStart (a ++ c :: b) = trimStart a ++ c :: b.
Proof.
  intros Hc; induction a as [|x a IH]; simpl.
  - now rewrite Hc.
  - destruct (isWhiteSpace x); [exact IH | reflexivity].
Qed.

Lemma trimStart_suffix s : exists p, s = p ++ trimStart s.
Proof.
  induction s as [|c s [p Hp]]; simpl.
  - now exists [].
  - destruct (isWhiteSpace c).
    + exists (c :: p); simpl; now f_equal.
    + now exists [].
Qed.

Lemma trimEnd_prefix s : exists t, s = trimEnd s ++ t.
Proof.
  unfold trimEnd. destruct (trimStart_suffix (rev s)) as [p Hp].
  exists (rev p). rewrite <- rev_app_distr, <- Hp. symmetry; apply rev_involutive.
Qed.

Lemma trimEnd_app a c b :
  isWhiteSpace c = false -> trimEnd (a ++ c :: b) = a ++ c :: trimEnd b.
Proof.
  intros Hc. unfold trimEnd.
  rewrite rev_app_distr; simpl. rewrite <- app_assoc; simpl.
  rewrite trimStart_app by exact Hc.
  rewrite rev_app_distr; simpl. rewrite rev_involutive, <- app_assoc.
  reflexivity.
Qed.

Lemma noDigitAhead_trimEnd s : noDigitAhead s -> noDigitAhead (trimEnd s).
Proof.
  destruct (trimEnd_prefix s) as [t Ht].
  destruct (trimEnd s) as [|c r]; [easy|].
  rewrite Ht; simpl; easy.
Qed.

Lemma digitPrefix_zeros k d rest :
  0 <= d <= 9 -> noDigitAhead rest ->
  digitPrefix 10 (repeat 48%N k ++ digit d :: rest) = repeat 0 k ++ [d].
Proof.
  intros Hd Hr. induction k as [|k IH]; simpl.
  - assert (E : radixDigit 10 (digit d) = Some d).
    { unfold digit.
      assert (C : d = 0 \/ d = 1 \/ d = 2 \/ d = 3 \/ d = 4 \/ d = 5 \/ d = 6
                  \/ d = 7 \/ d = 8 \/ d = 9) by lia.
      repeat (destruct C as [C|C]; [subst; reflexivity|]); subst; reflexivity. }
    rewrite E. destruct rest as [|c r]; simpl; [reflexivity|].
    simpl in Hr; now rewrite Hr.
  - now rewrite IH.
Qed.

Lemma mathInt_zeros k d : mathInt 10 (repeat 0 k ++ [d]) = d.
Proof.
  unfold mathInt. rewrite fold_left_app; simpl.
  induction k as [|k IH]; simpl; [reflexivity | exact IH].
Qed.

Lemma isWhiteSpace_digit d : 0 <= d <= 9 -> isWhiteSpace (digit d) = false.
Proof.
  intros Hd. unfold digit.
  assert (C : d = 0 \/ d = 1 \/ d = 2 \/ d = 3 \/ d = 4 \/ d = 5 \/ d = 6
              \/ d = 7 \/ d = 8 \/ d = 9) by lia.
  repeat (destruct C as [C|C]; [subst; reflexivity|]); subst; reflexivity.
Qed.

Lemma trim_prefixed ws plus zeros d rest :
  allWhiteSpace ws -> 0 <= d <= 9 ->
  trim (prefixed ws plus zeros d rest)
  = (if plus then [43%N] else []) ++ repeat 48%N zeros
      ++ digit d :: trimEnd rest.
Proof.
  intros Hws Hd. unfold trim, prefixed.
  rewrite trimStart_skip by exact Hws.
  pose proof (isWhiteSpace_digit d Hd) as Hdig.
  assert (K : forall pre, trimStart (pre ++ repeat 48%N zeros ++ digit d :: rest)
                 = pre ++ repeat 48%N zeros ++ digit d :: rest ->
              trimEnd (trimStart (pre ++ repeat 48%N zeros ++ digit d :: rest))
                 = pre ++ repeat 48%N zeros ++ digit d :: trimEnd rest).
  { intros pre E. rewrite E.
    rewrite !app_assoc. rewrite trimEnd_app by exact Hdig. reflexivity. }
  apply K. destruct plus; simpl; [reflexivity|].
  destruct zeros; simpl; [now rewrite Hdig | reflexivity].
Qed.

Lemma digit_range d : 0 <= d <= 9 -> (48 <= digit d <= 57)%N.
Proof. unfold digit; lia. Qed.

Lemma repeat_nonempty {A} (x : A) k l y : exists c r, repeat x k ++ y :: l = c :: r.
Proof. destruct k; simpl; eauto. Qed.

(** A string that starts with a decimal digit and not with [0x] is read in
    radix 10, with sign [+]. *)
Lemma parseInt_decimal zeros d r :
  1 <= d <= 9 -> noDigitAhead r ->
  parseInt (repeat 48%N zeros ++ digit d :: r) = Num d.
Proof.
  intros Hd Hr.
  pose proof (digit_range d ltac:(lia)) as Hc.
  pose proof (isWhiteSpace_digit d ltac:(lia)) as Hw.
  assert (T : trimStart (repeat 48%N zeros ++ digit d :: r)
              = repeat 48%N zeros ++ digit d :: r).
  { destruct zeros; simpl; [now rewrite Hw | reflexivity]. }
  assert (S : stripSign (repeat 48%N zeros ++ digit d :: r)
              = (1, repeat 48%N zeros ++ digit d :: r)).
  { destruct zeros; simpl; [|reflexivity].
    replace (digit d =? 45)%N with false by (symmetry; apply N.eqb_neq; lia).
    replace (digit d =? 43)%N with false by (symmetry; apply N.eqb_neq; lia).
    reflexivity. }
  assert (X : stripPrefix (repeat 48%N zeros ++ digit d :: r)
              = (10, repeat 48%N zeros ++ digit d :: r)).
  { destruct zeros as [|[|k]]; simpl.
    - destruct r; [reflexivity|].
      replace (digit d =? 48)%N with false by (symmetry; apply N.eqb_neq; unfold digit; lia).
      reflexivity.
    - replace (digit d =? 120)%N with false by (symmetry; apply N.eqb_neq; lia).
      replace (digit d =? 88)%N with false by (symmetry; apply N.eqb_neq; lia).
      reflexivity.
    - reflexivity. }
  unfold parseInt. rewrite T, S, X.
  rewrite digitPrefix_zeros by (auto; lia).
  pose proof (mathInt_zeros zeros d) as M.
  destruct (repeat_nonempty 0 zeros [] d) as (c & l & E).
  rewrite E in *. rewrite M. f_equal. lia.
Qed.

Lemma parseInt_prefixed ws plus zeros d rest :
  allWhiteSpace ws -> 1 <= d <= 9 -> noDigitAhead rest ->
  parseInt (trim (prefixed ws plus zeros d rest)) = Num d.
Proof.
  intros Hws Hd Hr.
  rewrite trim_prefixed by (auto; lia).
  apply noDigitAhead_trimEnd in Hr.
  pose proof (parseInt_decimal zeros d _ Hd Hr) as E.
  destruct plus; simpl app; [|exact E].
  unfold parseInt in *. simpl trimStart. simpl stripSign.
  assert (T : trimStart (repeat 48%N zeros ++ digit d :: trimEnd rest)
              = repeat 48%N zeros ++ digit d :: trimEnd rest).
  { destruct zeros; simpl; [|reflexivity].
    now rewrite (isWhiteSpace_digit d ltac:(lia)). }
  assert (S : stripSign (repeat 48%N zeros ++ digit d :: trimEnd rest)
              = (1, repeat 48%N zeros ++ digit d :: trimEnd rest)).
  { pose proof (digit_range d ltac:(lia)) as Hc.
    destruct zeros; simpl; [|reflexivity].
    replace (digit d =? 45)%N with false by (symmetry; apply N.eqb_neq; lia).
    replace (digit d =? 43)%N with false by (symmetry; apply N.eqb_neq; lia).
    reflexivity. }
  rewrite T, S in E. exact E.
Qed.

(** ** The validator *)

Lemma checkInput_accepts input g :
  fst (checkInput input g) = true ->
  exists z, input = Number (Num z) /\ 3 <= z <= 7.
Proof.
  destruct input as [| |[|z]]; simpl; try discriminate.
  destruct (z <? 3) eqn:A; simpl; [discriminate|].
  destruct (7 <? z) eqn:B; simpl; [discriminate|].
  intros _. exists z. split; [reflexivity|lia].
Qed.

(** C6: [checkInput] answers [true] exactly for a number of the closed
    range 3..7 and then shows nothing; for [null], [undefined] and [NaN]
    (which is what [parseInt] gives for an empty or unparseable field) it
    answers [false] and the message area shows the wrong-type message; for
    an integer below 3 or above 7 it answers [false] and the message area
    shows the out-of-range message.  Nothing but the message area is
    touched.  It is a total function: every input gets an answer. *)
Theorem checkInput_spec (input : jsvalue) (g : GameManager) :
  (fst (checkInput input g) = true
     <-> exists z, input = Number (Num z) /\ 3 <= z <= 7)
  /\ (input = Null \/ input = Undefined \/ input = Number NaN ->
        checkInput input g
        = (false, displayMessage MESSAGES.WRONG_INPUT_TYPE g)
        /\ messageArea (snd (checkInput input g))
           = MESSAGES.WRONG_INPUT_TYPE)
  /\ (forall z, input = Number (Num z) -> z < 3 \/ 7 < z ->
        checkInput input g = (false, displayMessage MESSAGES.NOT_IN_RANGE g)
        /\ messageArea (snd (checkInput input g)) = MESSAGES.NOT_IN_RANGE)
  /\ (forall z, input = Number (Num z) -> 3 <= z <= 7 ->
        checkInput input g = (true, g))
  /\ (checkInput (Number (parseInt (trim []))) g
      = (false, displayMessage MESSAGES.WRONG_INPUT_TYPE g)
      /\ messageArea (snd (checkInput (Number (parseInt (trim []))) g))
         = MESSAGES.WRONG_INPUT_TYPE)
  /\ (let g' := snd (checkInput input g) in
      buttons g' = buttons g /\ gameInProgress g' = gameInProgress g
      /\ clickedOrder g' = clickedOrder g /\ ogOrder g' = ogOrder g
      /\ timers g' = timers g).
Proof.
  split; [split|].
  - apply checkInput_accepts.
  - intros (z & -> & Hz). simpl.
    replace (z <? 3) with false by lia. replace (7 <? z) with false by lia.
    reflexivity.
  - split; [|split; [|split; [|split]]].
    + intros [->|[->| ->]]; split; reflexivity.
    + intros z -> Hz.
      assert (E : checkInput (Number (Num z)) g
                  = (false, displayMessage MESSAGES.NOT_IN_RANGE g)).
      { simpl. destruct Hz; [replace (z <? 3) with true by lia; reflexivity|].
        replace (7 <? z) with true by lia. now rewrite orb_true_r. }
      rewrite E. split; reflexivity.
    + intros z -> Hz. simpl.
      replace (z <? 3) with false by lia. replace (7 <? z) with false by lia.
      reflexivity.
    + split; reflexivity.
    + destruct input as [| |[|z]]; simpl; auto.
      destruct ((z <? 3) || (7 <? z)); simpl; auto.
Qed.

Lemma checkInput_spec_witness :
  checkInput (Number (Num 10)) newGameManager
  = (false, displayMessage MESSAGES.NOT_IN_RANGE newGameManager)
  /\ messageArea (snd (checkInput (Number (Num 10)) newGameManager))
     = MESSAGES.NOT_IN_RANGE.
Proof.
  apply (proj1 (proj2 (proj2 (checkInput_spec (Number (Num 10)) newGameManager)))
           10 eq_refl).
  right; lia.
Defined.

Lemma checkInput_valid z g : 3 <= z <= 7 -> checkInput (Number (Num z)) g = (true, g).
Proof.
  intros Hz. simpl.
  replace (z <? 3) with false by lia. replace (7 <? z) with false by lia.
  reflexivity.
Qed.

(** A rejected input changes the message and nothing else. *)
Lemma checkInput_rejects x g :
  fst (checkInput (Number x) g) = false ->
  exists m, checkInput (Number x) g = (false, displayMessage m g)
    /\ ((x = NaN /\ m = MESSAGES.WRONG_INPUT_TYPE)
        \/ (exists z, x = Num z /\ (z < 3 \/ 7 < z)
              /\ m = MESSAGES.NOT_IN_RANGE)).
Proof.
  destruct x as [|z]; simpl.
  - intros _. eexists; split; [reflexivity|]. now left.
  - destruct (z <? 3) eqn:A; simpl.
    + intros _. eexists; split; [reflexivity|]. right. exists z. repeat split; lia.
    + destruct (7 <? z) eqn:B; simpl; [|discriminate].
      intros _. eexists; split; [reflexivity|]. right. exists z. repeat split; lia.
Qed.

(** ** Creating the buttons *)

Lemma randomIndex_lt r len :
  (0 <= r /\ r < 1)%Q -> (0 < len)%nat -> (randomIndex r len < len)%nat.
Proof.
  intros [H0 H1] Hlen. unfold randomIndex.
  set (n := Z.of_nat len).
  assert (Hn : (inject_Z 0 < inject_Z n)%Q) by (rewrite <- Zlt_Qlt; lia).
  change (inject_Z 0) with 0%Q in Hn.
  assert (U : (r * inject_Z n < inject_Z n)%Q) by nra.
  assert (L : (0 <= r * inject_Z n)%Q) by nra.
  assert (F : Qfloor (r * inject_Z n) < n).
  { rewrite Zlt_Qlt. eapply Qle_lt_trans; [apply Qfloor_le | exact U]. }
  assert (G : 0 <= Qfloor (r * inject_Z n)).
  { rewrite <- (Qfloor_Z 0). apply Qfloor_resp_le. exact L. }
  lia.
Qed.

Section Splice.
Context {A : Type}.
Implicit Types (a : list A) (x : A).

Lemma splice1_length idx a x :
  nth_error a idx = Some x -> S (length (splice1 idx a)) = length a.
Proof.
  intros H. pose proof (nth_error_split a idx H) as (l1 & l2 & -> & <-).
  unfold splice1. rewrite firstn_app, skipn_app.
  rewrite Nat.sub_diag, firstn_all, firstn_O, app_nil_r.
  replace (S (length l1) - length l1)%nat with 1%nat by lia.
  rewrite skipn_all2 by lia. simpl.
  rewrite !length_app; simpl; lia.
Qed.

Lemma splice1_split idx a x :
  nth_error a idx = Some x ->
  exists l1 l2, a = l1 ++ x :: l2 /\ splice1 idx a = l1 ++ l2.
Proof.
  intros H. pose proof (nth_error_split a idx H) as (l1 & l2 & -> & <-).
  exists l1, l2. split; [reflexivity|].
  unfold splice1. rewrite firstn_app, skipn_app.
  rewrite Nat.sub_diag, firstn_all, firstn_O, app_nil_r.
  replace (S (length l1) - length l1)%nat with 1%nat by lia.
  rewrite skipn_all2 by lia. reflexivity.
Qed.

Lemma splice1_NoDup idx a x :
  NoDup a -> nth_error a idx = Some x ->
  NoDup (splice1 idx a) /\ ~ In x (splice1 idx a) /\ incl (splice1 idx a) a.
Proof.
  intros N H. destruct (splice1_split idx a x H) as (l1 & l2 & -> & ->).
  split; [eapply NoDup_remove_1; eauto|].
  split; [eapply NoDup_remove_2; eauto|].
  intros y Hy. apply in_app_or in Hy. apply in_or_app.
  destruct Hy; [now left | right; now right].
Qed.
End Splice.

(** What [makeButtonLoop] appends: [count] fresh buttons numbered from
    [i], coloured with distinct entries of the colours still available. *)
Lemma makeButtonLoop_spec rnd (Hrnd : unitDraws rnd) count :
  forall i availableColors bs,
    NoDup availableColors -> (count <= length availableColors)%nat ->
    exists created cs,
      makeButtonLoop count i rnd availableColors bs = bs ++ created
      /\ map id created = seq i count
      /\ map color created = map Some cs
      /\ NoDup cs /\ incl cs availableColors
      /\ Forall fresh created.
Proof.
  induction count as [|count IH]; intros i colors bs N L.
  - exists [], []. simpl. rewrite app_nil_r.
    repeat split; auto using NoDup_nil, incl_nil_l.
  - simpl.
    set (idx := randomIndex (rnd i) (length colors)).
    assert (Hidx : (idx < length colors)%nat)
      by (apply randomIndex_lt; [apply Hrnd | lia]).
    destruct (nth_error colors idx) as [c|] eqn:E;
      [|apply nth_error_None in E; lia].
    destruct (splice1_NoDup idx colors c N E) as (N' & Hc & Hincl).
    pose proof (splice1_length idx colors c E) as Hlen.
    destruct (IH (S i) (splice1 idx colors)
                 (bs ++ [showNumber (newGameButton i (Some c))]) N'
                 ltac:(lia))
      as (created & cs & -> & Hid & Hcol & Hnd & Hin & Hfresh).
    exists (showNumber (newGameButton i (Some c)) :: created), (c :: cs).
    rewrite <- app_assoc. simpl.
    repeat split.
    + now rewrite Hid.
    + now rewrite Hcol.
    + constructor; [|exact Hnd]. intros X. apply Hc, Hin, X.
    + intros y [<-|Hy]; [eapply nth_error_In; eauto | apply Hincl, Hin, Hy].
    + constructor; [|exact Hfresh]. now repeat split.
Qed.

Lemma BUTTON_COLORS_NoDup : NoDup STYLE_CONFIG.BUTTON_COLORS.
Proof.
  unfold STYLE_CONFIG.BUTTON_COLORS.
  repeat (constructor; [simpl; intros H;
    repeat (destruct H as [H|H]; [discriminate H|]); exact H|]).
  constructor.
Qed.

Lemma NoDup_map_Some {A} (l : list A) : NoDup l -> NoDup (map Some l).
Proof.
  induction 1 as [|x l Hx _ IH]; simpl; constructor; [|exact IH].
  rewrite in_map_iff. intros (y & [= ->] & Hy). now apply Hx.
Qed.

(** C5: for [n] from 3 to 7, [makeButton(n)] appends exactly [n] buttons
    to the collection (which [initGame] has emptied); their ids are
    0, ..., n-1 in creation order, their colours are entries of the palette
    of seven and pairwise distinct, and each one shows its number. *)
Theorem makeButton_spec (n : Z) (rnd : nat -> Q) (g : GameManager) :
  3 <= n <= 7 -> unitDraws rnd ->
  exists created,
    buttons (makeButton (Num n) rnd g) = buttons g ++ created
    /\ length created = Z.to_nat n
    /\ map id created = seq 0 (Z.to_nat n)
    /\ NoDup (map color created)
    /\ (forall b, In b created ->
          exists c, color b = Some c /\ In c STYLE_CONFIG.BUTTON_COLORS)
    /\ Forall numberVisible created.
Proof.
  intros Hn Hrnd. unfold makeButton; simpl.
  destruct (makeButtonLoop_spec rnd Hrnd (Z.to_nat n) 0
              STYLE_CONFIG.BUTTON_COLORS (buttons g) BUTTON_COLORS_NoDup)
    as (created & cs & E & Hid & Hcol & Hnd & Hin & Hfresh).
  { simpl. lia. }
  exists created. repeat split.
  - exact E.
  - rewrite <- (length_map id), Hid. apply length_seq.
  - exact Hid.
  - rewrite Hcol. now apply NoDup_map_Some.
  - intros b Hb. apply (in_map color) in Hb. rewrite Hcol in Hb.
    apply in_map_iff in Hb. destruct Hb as (c & Hc1 & Hc2).
    exists c. split; [now symmetry | now apply Hin].
  - eapply Forall_impl; [|exact Hfresh]. now intros b (H & _).
Qed.

Lemma makeButton_spec_witness :
  exists created,
    buttons (makeButton (Num 3) half newGameManager)
    = buttons newGameManager ++ created
    /\ length created = Z.to_nat 3
    /\ map id created = seq 0 (Z.to_nat 3)
    /\ NoDup (map color created)
    /\ (forall b, In b created ->
          exists c, color b = Some c /\ In c STYLE_CONFIG.BUTTON_COLORS)
    /\ Forall numberVisible created.
Proof.
  apply (makeButton_spec 3 half newGameManager); [lia|].
  intros j; split; [discriminate | reflexivity].
Defined.

(** ** Scrambling *)

(** [m + r * (M - m)] stays between [m] and [M] for a draw [r]. *)
Lemma draw_between (m M : Z) (r : Q) :
  (0 <= r /\ r < 1)%Q -> m <= M ->
  (inject_Z m <= inject_Z m + r * inject_Z (M - m)
   /\ inject_Z m + r * inject_Z (M - m) <= inject_Z M)%Q.
Proof.
  intros [H0 H1] H. unfold Z.sub. rewrite inject_Z_plus, inject_Z_opp.
  assert (L : (inject_Z m <= inject_Z M)%Q) by (rewrite <- Zle_Qle; exact H).
  split; nra.
Qed.

Lemma relocate_withinViewport env w h rnd :
  unitDraws rnd ->
  STYLE_CONFIG.EDGE_MARGIN <= innerWidth env - w - STYLE_CONFIG.EDGE_MARGIN ->
  STYLE_CONFIG.EDGE_MARGIN <= innerHeight env - h - STYLE_CONFIG.EDGE_MARGIN ->
  forall bs k, Forall (withinViewport env w h) (relocate env w h rnd k bs).
Proof.
  intros Hrnd HX HY. induction bs as [|b bs IH]; intros k; cbn [relocate].
  - constructor.
  - constructor; [|apply IH].
    eexists _, _. split; [reflexivity|].
    split; apply draw_between; auto.
Qed.

Lemma relocate_length env w h rnd bs : forall k,
  length (relocate env w h rnd k bs) = length bs.
Proof. induction bs; intros k; simpl; [reflexivity | now rewrite IHbs]. Qed.

(** C9 (amended): when the window is at least as wide and as high as a
    button with the margin on both sides, every button that an iteration of
    the scrambling loop moves is put at a point whose x lies in
    [[margin, innerWidth - btnWidth - margin]] and whose y lies in
    [[margin, innerHeight - btnHeight - margin]]. *)
Theorem scrambleLoop_withinViewport (times : number) (i : nat)
    (btnWidth btnHeight : Z) (env : Browser) (rnd : nat -> Q)
    (g : GameManager) :
  unitDraws rnd ->
  lessThan (Num (Z.of_nat i)) times = true ->
  btnWidth + 2 * STYLE_CONFIG.EDGE_MARGIN <= innerWidth env ->
  btnHeight + 2 * STYLE_CONFIG.EDGE_MARGIN <= innerHeight env ->
  let g' := scrambleLoop times i btnWidth btnHeight env rnd g in
  length (buttons g') = length (buttons g)
  /\ Forall (withinViewport env btnWidth btnHeight) (buttons g').
Proof.
  intros Hrnd Hi HX HY. unfold scrambleLoop. rewrite Hi. simpl.
  split; [apply relocate_length|].
  apply relocate_withinViewport; [exact Hrnd | lia | lia].
Qed.

Lemma scrambleLoop_withinViewport_witness :
  let g' := scrambleLoop (Num 3) 0 160 80 desktop half
              (initGame (str "3") half newGameManager) in
  length (buttons g')
  = length (buttons (initGame (str "3") half newGameManager))
  /\ Forall (withinViewport desktop 160 80) (buttons g').
Proof.
  apply (scrambleLoop_withinViewport (Num 3) 0 160 80 desktop half).
  - intros j; split; [discriminate | reflexivity].
  - reflexivity.
  - vm_compute; discriminate.
  - vm_compute; discriminate.
Defined.

(** C9 fails as stated in a window narrower than a button and two
    margins: with a window 100 wide and buttons 160 wide the first pass
    puts a button at x = 10, above the upper end -70 of the interval. *)
Lemma scramble_outside_narrow_window :
  let g := run [Go (str "3") zero; Timeout 0 narrow zero] newGameManager in
  exists b x y,
    nth_error (buttons g) 0 = Some b
    /\ location b = Some (x, y)
    /\ ~ (inject_Z STYLE_CONFIG.EDGE_MARGIN <= x
          /\ x <= inject_Z (innerWidth narrow - offsetWidth narrow
                            - STYLE_CONFIG.EDGE_MARGIN))%Q.
Proof.
  simpl. eexists _, _, _. split; [reflexivity|]. split; [reflexivity|].
  intros [_ H]. vm_compute in H. now apply H.
Qed.

(** ** Submitting the input *)

(** The shape of what [makeButtonLoop] appends, whatever the draws. *)
Lemma makeButtonLoop_shape rnd count :
  forall i availableColors bs,
    exists created,
      makeButtonLoop count i rnd availableColors bs = bs ++ created
      /\ map id created = seq i count
      /\ Forall fresh created.
Proof.
  induction count as [|count IH]; intros i colors bs; simpl.
  - exists []. rewrite app_nil_r. repeat split; constructor.
  - match goal with |- context [makeButtonLoop count (S i) rnd ?c ?l] =>
      destruct (IH (S i) c l) as (created & -> & Hid & Hfresh) end.
    eexists (_ :: created). rewrite <- app_assoc. simpl.
    repeat split; [now rewrite Hid|].
    constructor; [now repeat split | exact Hfresh].
Qed.

Lemma initGame_invalid_eq value rnd g :
  invalid (parseInt (trim value)) ->
  initGame value rnd g
  = displayMessage (rejection (parseInt (trim value)))
      (if gameInProgress g then cleared g else g).
Proof.
  intros Hv. unfold initGame.
  destruct (parseInt (trim value)) as [|z] eqn:E.
  - simpl. destruct (gameInProgress g); reflexivity.
  - destruct Hv as [Hv|(z' & [= <-] & Hz)]; [discriminate|].
    assert (R : (z <? 3) || (7 <? z) = true)
      by (apply orb_true_iff; destruct Hz; [left|right]; lia).
    simpl. rewrite R. destruct (gameInProgress g); reflexivity.
Qed.

Lemma initGame_valid_eq value rnd g n :
  parseInt (trim value) = Num n -> 3 <= n <= 7 ->
  initGame value rnd g
  = playGame (Num n)
      (set_gameInProgress true
         (displayMessage MESSAGES.START
            (makeButton (Num n) rnd
               (if gameInProgress g then cleared g else g)))).
Proof.
  intros E Hn. unfold initGame. rewrite E.
  assert (C : forall h, checkInput (Number (Num n)) h = (true, h))
    by (intros h; now apply checkInput_valid).
  destruct (gameInProgress g); rewrite C; reflexivity.
Qed.

(** C4 (amended): when the field parses to [NaN] or to an integer outside
    3..7, [initGame] shows the message of the validator, makes no button and
    registers no timer.  With no game in progress the buttons, both recorded
    orders and [gameInProgress] stay as they were; with a game in progress
    the reset runs before the validation, so the buttons are removed, both
    orders are emptied and [gameInProgress] becomes false. *)
Theorem initGame_invalid (value : jsstring) (rnd : nat -> Q)
    (g : GameManager) :
  invalid (parseInt (trim value)) ->
  let g' := initGame value rnd g in
  messageArea g' = rejection (parseInt (trim value))
  /\ timers g' = timers g
  /\ gameInProgress g' = false
  /\ (gameInProgress g = false ->
        buttons g' = buttons g /\ clickedOrder g' = clickedOrder g
        /\ ogOrder g' = ogOrder g)
  /\ (gameInProgress g = true ->
        buttons g' = [] /\ clickedOrder g' = [] /\ ogOrder g' = []).
Proof.
  intros Hv g'. subst g'. rewrite (initGame_invalid_eq value rnd g Hv).
  destruct (gameInProgress g) eqn:P; simpl; repeat split;
    try discriminate; auto.
Qed.

Lemma initGame_invalid_witness :
  let g' := initGame (str "abc") half recall3 in
  messageArea g' = rejection (parseInt (trim (str "abc")))
  /\ timers g' = timers recall3
  /\ gameInProgress g' = false
  /\ (gameInProgress recall3 = false ->
        buttons g' = buttons recall3 /\ clickedOrder g' = clickedOrder recall3
        /\ ogOrder g' = ogOrder recall3)
  /\ (gameInProgress recall3 = true ->
        buttons g' = [] /\ clickedOrder g' = [] /\ ogOrder g' = []).
Proof.
  apply (initGame_invalid (str "abc") half recall3).
  left. reflexivity.
Defined.

(** C4 fails as stated while a round is in progress: submitting [abc]
    during the guessing game of a three-button round removes the buttons,
    empties the recorded original order and resets [gameInProgress]. *)
Lemma invalid_input_clears_round :
  let g := recall3 in
  let g' := step g (Go (str "abc") half) in
  invalid (parseInt (trim (str "abc")))
  /\ messageArea g' = MESSAGES.WRONG_INPUT_TYPE
  /\ ~ (buttons g' = buttons g /\ ogOrder g' = ogOrder g
        /\ clickedOrder g' = clickedOrder g
        /\ gameInProgress g' = gameInProgress g).
Proof.
  repeat split; [now left|].
  intros (H & _). vm_compute in H. discriminate H.
Qed.

(** ** What every reachable state satisfies *)

Section Ids.
Implicit Types (bs : list GameButton) (f : GameButton -> GameButton).

Lemma map_id_map f bs :
  (forall b, id (f b) = id b) -> map id (map f bs) = map id bs.
Proof.
  intros H. rewrite map_map. apply map_ext. exact H.
Qed.

Lemma map_id_update f bs : (forall b, id (f b) = id b) ->
  forall i, map id (update i f bs) = map id bs.
Proof.
  intros H. induction bs as [|b bs IH]; intros [|i]; simpl;
    rewrite ?H, ?IH; reflexivity.
Qed.

Lemma map_id_relocate env w h rnd bs : forall k,
  map id (relocate env w h rnd k bs) = map id bs.
Proof.
  induction bs as [|b bs IH]; intros k; simpl; [|rewrite IH]; reflexivity.
Qed.
End Ids.

Lemma invariant_same_ids g g' :
  map id (buttons g') = map id (buttons g) ->
  gameInProgress g' = gameInProgress g ->
  ogOrder g' = ogOrder g -> clickedOrder g' = clickedOrder g ->
  invariant g -> invariant g'.
Proof.
  intros Hb Hp Ho Hc (I1 & I2 & I3 & I4).
  assert (L : length (buttons g') = length (buttons g))
    by (rewrite <- (length_map id), Hb; apply length_map).
  unfold invariant. rewrite Hp, Ho, Hc, Hb, L. repeat split; auto.
  intros P. specialize (I1 P). rewrite I1 in Hb.
  destruct (buttons g'); [reflexivity | discriminate].
Qed.

Lemma invariant_new : invariant newGameManager.
Proof. repeat split; auto. now exists []. Qed.

Lemma invariant_cleared g : invariant (cleared g).
Proof. repeat split; auto. now exists []. Qed.

Lemma invariant_playGame_fresh n rnd m p co og ts :
  invariant
    (playGame n
       (set_gameInProgress true
          (displayMessage MESSAGES.START
             (makeButton n rnd (mkGame [] m p co og ts))))).
Proof.
  unfold playGame, makeButton. simpl.
  destruct (makeButtonLoop_shape rnd (iterations n) 0%nat
              STYLE_CONFIG.BUTTON_COLORS [])
    as (created & -> & Hid & _). unfold invariant. simpl.
  repeat split; try discriminate.
  - rewrite Hid. f_equal. rewrite <- (length_map id), Hid.
    symmetry; apply length_seq.
  - now exists (map id created).
Qed.

Lemma invariant_initGame value rnd g :
  invariant g -> invariant (initGame value rnd g).
Proof.
  intros I.
  destruct (checkInput (Number (parseInt (trim value))) g) as [ok gx] eqn:C0.
  assert (V : ok = true -> exists n, parseInt (trim value) = Num n /\ 3 <= n <= 7).
  { intros ->.
    destruct (checkInput_accepts (Number (parseInt (trim value))) g)
      as (z & [= E] & Hz); [now rewrite C0 | eauto]. }
  destruct ok.
  - destruct (V eq_refl) as (n & E & Hn).
    rewrite (initGame_valid_eq value rnd g n E Hn).
    destruct (gameInProgress g) eqn:P; [apply invariant_playGame_fresh|].
    destruct I as (I1 & _). specialize (I1 P).
    destruct g as [bs m p co og ts]; simpl in *. subst bs.
    apply invariant_playGame_fresh.
  - assert (Hv : invalid (parseInt (trim value))).
    { destruct (checkInput_rejects (parseInt (trim value)) g) as (m & _ & H);
        [now rewrite C0|].
      destruct H as [[H _]|(z & H & Hz & _)]; [now left | right; eauto]. }
    rewrite (initGame_invalid_eq value rnd g Hv).
    destruct (gameInProgress g).
    + generalize (invariant_cleared g). apply invariant_same_ids; reflexivity.
    + revert I. apply invariant_same_ids; reflexivity.
Qed.

Lemma invariant_memoryTest g : invariant g -> invariant (memoryTest g).
Proof.
  apply invariant_same_ids; try reflexivity.
  simpl. now apply map_id_map.
Qed.

Lemma invariant_scrambleLoop times i w h env rnd g :
  invariant g -> invariant (scrambleLoop times i w h env rnd g).
Proof.
  intros I. unfold scrambleLoop. destruct (lessThan _ _).
  - revert I. apply invariant_same_ids; try reflexivity.
    simpl. apply map_id_relocate.
  - now apply invariant_memoryTest.
Qed.

Lemma invariant_timeout k env rnd g :
  invariant g -> invariant (timeout k env rnd g).
Proof.
  intros I. unfold timeout. destruct (nth_error (timers g) k) as [t|]; [|exact I].
  assert (I' : invariant (set_timers (splice1 k (timers g)) g))
    by (revert I; apply invariant_same_ids; reflexivity).
  revert I'. generalize (set_timers (splice1 k (timers g)) g) as g1.
  intros g1 I1. destruct (task t) as [userValue|times i w h]; cbn [resume].
  - assert (I2 : invariant (set_buttons (map hideNumber (buttons g1)) g1)).
    { revert I1. apply invariant_same_ids; try reflexivity.
      simpl. now apply map_id_map. }
    destruct (buttons (set_buttons (map hideNumber (buttons g1)) g1));
      [exact I2 | now apply invariant_scrambleLoop].
  - now apply invariant_scrambleLoop.
Qed.

Lemma sameId_true i e : sameId i e = true -> e = Some i.
Proof.
  destruct e as [e|]; simpl; [|discriminate].
  intros H. apply Nat.eqb_eq in H. now subst.
Qed.

Lemma invariant_checkClick i g : invariant g -> invariant (checkClick i g).
Proof.
  intros I. unfold checkClick.
  destruct (nth_error (buttons g) i) as [button|]; [|exact I].
  destruct (sameId (id button) _) eqn:S.
  - apply sameId_true in S.
    assert (I' : invariant
              (set_clickedOrder (clickedOrder g ++ [id button])
                 (set_buttons (update i showNumber (buttons g)) g))).
    { destruct I as (I1 & I2 & I3 & rest & I4).
      assert (M : map id (update i showNumber (buttons g)) = map id (buttons g))
        by now apply map_id_update.
      assert (L : length (update i showNumber (buttons g)) = length (buttons g))
        by (rewrite <- (length_map id), M; apply length_map).
      unfold invariant; simpl. rewrite M, L. repeat split; auto.
      - intros P. specialize (I1 P). rewrite I1. now destruct i.
      - rewrite I4 in S. rewrite nth_error_app2 in S by lia.
        rewrite Nat.sub_diag in S. destruct rest as [|x rest]; [discriminate|].
        injection S as ->. exists rest. rewrite I4, <- app_assoc. reflexivity. }
    simpl. destruct (Nat.eqb _ _); [|exact I'].
    revert I'. apply invariant_same_ids; reflexivity.
  - revert I. apply invariant_same_ids; try reflexivity.
    simpl. rewrite !map_id_map; auto.
Qed.

Lemma invariant_click i g : invariant g -> invariant (click i g).
Proof.
  unfold click. destruct (nth_error (buttons g) i) as [b|]; [|auto].
  generalize (handlers b) as hs. intros hs; revert g.
  induction hs as [|[] hs IH]; intros g I; simpl; [exact I|].
  apply IH. now apply invariant_checkClick.
Qed.

Theorem reachable_invariant g : reachable g -> invariant g.
Proof.
  induction 1 as [|g e _ IH]; [exact invariant_new|].
  destruct e as [value rnd|k env rnd|i]; simpl.
  - now apply invariant_initGame.
  - now apply invariant_timeout.
  - now apply invariant_click.
Qed.

(** In every reachable state the recorded clicks are a prefix of the
    original order. *)
Corollary reachable_clicked_prefix g :
  reachable g -> exists rest, ogOrder g = clickedOrder g ++ rest.
Proof. intros R. now destruct (reachable_invariant g R) as (_ & _ & _ & H). Qed.

Lemma reachable_run es : forall g, reachable g -> reachable (run es g).
Proof.
  induction es as [|e es IH]; intros g R; simpl; [exact R|].
  apply IH. now constructor.
Qed.

(** ** Starting a round *)

(** The state right after a valid submission. *)
Lemma initGame_valid_state value rnd g n :
  invariant g -> parseInt (trim value) = Num n -> 3 <= n <= 7 ->
  exists created,
    initGame value rnd g
    = mkGame created MESSAGES.START true [] (seq 0 (Z.to_nat n))
             (timers g ++ [mkTimer (Num (n * 1000)) (AfterShow (Num n))])
    /\ created = makeButtonLoop (Z.to_nat n) 0 rnd STYLE_CONFIG.BUTTON_COLORS []
    /\ map id created = seq 0 (Z.to_nat n)
    /\ length created = Z.to_nat n
    /\ Forall fresh created.
Proof.
  intros (I1 & _) E Hn. rewrite (initGame_valid_eq value rnd g n E Hn).
  assert (B : buttons (if gameInProgress g then cleared g else g) = []
              /\ timers (if gameInProgress g then cleared g else g) = timers g).
  { destruct (gameInProgress g); [now split | split; auto]. }
  destruct B as [B T]. revert B T.
  generalize (if gameInProgress g then cleared g else g) as g0.
  intros [bs m p co og ts]; simpl; intros -> ->.
  unfold playGame, makeButton, pause; simpl.
  destruct (makeButtonLoop_shape rnd (Z.to_nat n) 0%nat
              STYLE_CONFIG.BUTTON_COLORS [])
    as (created & Ec & Hid & Hfresh). simpl in Ec.
  exists created. rewrite Ec, Hid. repeat split; auto.
  rewrite <- (length_map id), Hid. apply length_seq.
Qed.

(** C10: a field that holds white space, an optional plus sign, zeros, one
    digit [d] from 3 to 7 and then anything that does not go on with a digit
    (letters, a decimal point and more digits, ...) is trimmed, parsed to
    [d] by [parseInt] and accepted: [initGame] creates [d] buttons with ids
    0..d-1, records them as the original order, shows the START message and
    parks [playGame(d)] behind a timer of [d] seconds. *)
Theorem numeric_prefix_accepted (ws : jsstring) (plus : bool) (zeros : nat)
    (d : Z) (rest : jsstring) (rnd : nat -> Q) (g : GameManager) :
  allWhiteSpace ws -> 3 <= d <= 7 -> noDigitAhead rest -> reachable g ->
  let value := prefixed ws plus zeros d rest in
  let g' := initGame value rnd g in
  parseInt (trim value) = Num d
  /\ length (buttons g') = Z.to_nat d
  /\ map id (buttons g') = seq 0 (Z.to_nat d)
  /\ Forall numberVisible (buttons g')
  /\ ogOrder g' = seq 0 (Z.to_nat d)
  /\ clickedOrder g' = []
  /\ gameInProgress g' = true
  /\ messageArea g' = MESSAGES.START
  /\ timers g' = timers g ++ [mkTimer (Num (d * 1000)) (AfterShow (Num d))].
Proof.
  intros Hws Hd Hr R value g'.
  assert (E : parseInt (trim value) = Num d)
    by (apply parseInt_prefixed; auto; lia).
  split; [exact E|].
  destruct (initGame_valid_state value rnd g d (reachable_invariant g R) E Hd)
    as (created & Eg & _ & Hid & Hlen & Hfresh).
  subst g'. rewrite Eg. simpl. repeat split; auto.
  eapply Forall_impl; [|exact Hfresh]. now intros b (H & _).
Qed.

Lemma numeric_prefix_accepted_witness :
  let value := prefixed [] false 0 3 (str "abc") in
  let g' := initGame value half newGameManager in
  value = str "3abc"
  /\ parseInt (trim value) = Num 3
  /\ length (buttons g') = Z.to_nat 3
  /\ map id (buttons g') = seq 0 (Z.to_nat 3)
  /\ Forall numberVisible (buttons g')
  /\ ogOrder g' = seq 0 (Z.to_nat 3)
  /\ clickedOrder g' = []
  /\ gameInProgress g' = true
  /\ messageArea g' = MESSAGES.START
  /\ timers g'
     = timers newGameManager ++ [mkTimer (Num (3 * 1000)) (AfterShow (Num 3))].
Proof.
  split; [reflexivity|].
  apply (numeric_prefix_accepted [] false 0 3 (str "abc") half newGameManager).
  - constructor.
  - lia.
  - reflexivity.
  - constructor.
Defined.

Example prefixed_7_9 : prefixed [] false 0 7 (str ".9") = str "7.9".
Proof. reflexivity. Qed.

Example prefixed_padded :
  prefixed (str "  ") true 2 5 (str "px ") = str "  +005px ".
Proof. reflexivity. Qed.

(** ** The schedule of a round *)

Lemma run_app es1 es2 g : run (es1 ++ es2) g = run es2 (run es1 g).
Proof. unfold run. apply fold_left_app. Qed.

Lemma firstn_snoc {A} (l : list A) : forall j x,
  nth_error l j = Some x -> firstn (S j) l = firstn j l ++ [x].
Proof.
  induction l as [|y l IH]; intros [|j] x H; try discriminate.
  - now injection H as ->.
  - simpl in H. change (y :: firstn (S j) l = y :: (firstn j l ++ [x])).
    f_equal. now apply IH.
Qed.

Lemma relocate_relocate env env' w h w' h' r r' bs : forall k k',
  relocate env w h r k (relocate env' w' h' r' k' bs)
  = relocate env w h r k bs.
Proof.
  induction bs as [|b bs IH]; intros k k'; cbn [relocate]; [reflexivity|].
  now rewrite IH.
Qed.

Lemma relocate_handlers env w h r (P : list Handler -> Prop) bs : forall k,
  Forall (fun b => P (handlers b)) bs ->
  Forall (fun b => P (handlers b)) (relocate env w h r k bs).
Proof.
  induction bs as [|b bs IH]; intros k H; cbn [relocate]; [constructor|].
  inversion H; subst. constructor; [assumption | now apply IH].
Qed.

Lemma relocate_located env w h r bs : forall k,
  Forall located (relocate env w h r k bs).
Proof.
  induction bs as [|b bs IH]; intros k; cbn [relocate]; constructor; auto.
  eexists _, _. reflexivity.
Qed.

Section Round.
Variables (g0 : GameManager) (n : Z).
Hypothesis n_range : 3 <= n <= 7.
Hypothesis g0_buttons : length (buttons g0) = Z.to_nat n.
Hypothesis g0_timers :
  timers g0 = [mkTimer (Num (n * 1000)) (AfterShow (Num n))].

Lemma first_fire env r :
  timeout 0 env r g0
  = scrambling g0 n 0 (offsetWidth env) (offsetHeight env) env r.
Proof.
  unfold timeout. rewrite g0_timers. cbn [nth_error task resume splice1].
  cbn [buttons set_buttons set_timers].
  destruct (buttons g0) as [|b bs] eqn:B; [simpl in g0_buttons; lia|].
  cbn [map]. unfold scrambleLoop.
  replace (lessThan (Num (Z.of_nat 0)) (Num n)) with true
    by (simpl; symmetry; apply Z.ltb_lt; lia).
  unfold scrambling. rewrite B. reflexivity.
Qed.

Lemma next_fire j w h env' r' env r :
  (S j < Z.to_nat n)%nat ->
  timeout 0 env r (scrambling g0 n j w h env' r')
  = scrambling g0 n (S j) w h env r.
Proof.
  intros Hj. unfold timeout, scrambling.
  cbn [timers nth_error task resume splice1]. unfold scrambleLoop.
  replace (lessThan (Num (Z.of_nat (S j))) (Num n)) with true
    by (simpl; symmetry; apply Z.ltb_lt; lia).
  unfold pause. cbn. rewrite relocate_relocate. reflexivity.
Qed.

Lemma last_fire j w h env' r' env r :
  S j = Z.to_nat n ->
  timeout 0 env r (scrambling g0 n j w h env' r')
  = memoryTest (set_timers [] (scrambling g0 n j w h env' r')).
Proof.
  intros Hj. unfold timeout, scrambling.
  cbn [timers nth_error task resume splice1]. unfold scrambleLoop.
  replace (lessThan (Num (Z.of_nat (S j))) (Num n)) with false
    by (simpl; symmetry; apply Z.ltb_ge; lia).
  reflexivity.
Qed.

(** After [j + 1] timers the round has made pass [j], and only that. *)
Lemma fires_scrambling fires j : forall env r,
  (j < Z.to_nat n)%nat -> nth_error fires j = Some (env, r) ->
  exists env0 r0, nth_error fires 0 = Some (env0, r0)
    /\ run (map fire (firstn (S j) fires)) g0
       = scrambling g0 n j (offsetWidth env0) (offsetHeight env0) env r.
Proof.
  induction j as [|j IH]; intros env r Hj Hf.
  - exists env, r. split; [exact Hf|].
    destruct fires as [|f fires]; [discriminate|].
    injection Hf as ->. simpl. apply first_fire.
  - destruct (nth_error fires j) as [[env' r']|] eqn:E.
    2:{ apply nth_error_None in E.
        assert (nth_error fires (S j) = None) by (apply nth_error_None; lia).
        congruence. }
    destruct (IH env' r' ltac:(lia) eq_refl) as (env0 & r0 & H0 & Hrun).
    exists env0, r0. split; [exact H0|].
    rewrite (firstn_snoc fires (S j) (env, r) Hf), map_app, run_app, Hrun.
    simpl. now apply next_fire.
Qed.
End Round.

Lemma fresh_noHandlers bs :
  Forall fresh bs -> Forall (fun b => handlers b = []) (map hideNumber bs).
Proof.
  induction 1 as [|b bs (_ & _ & Ho & Hl) _ IH]; simpl; constructor; auto.
  unfold handlers; simpl. now rewrite Ho.
Qed.

Lemma memoryTest_handlers bs :
  Forall (fun b => handlers b = []) bs ->
  Forall (fun b => handlers b = [CheckClick])
    (map (fun button => addEventListener CheckClick (set_onclick None button))
         bs).
Proof.
  induction 1 as [|b bs Hb _ IH]; simpl; constructor; auto.
  unfold handlers in *; simpl. destruct (onclick b); [discriminate|].
  now rewrite Hb.
Qed.

(** C8 (amended): a round started with the valid input [n] while no timer
    of an earlier round is pending runs on [n + 1] timers.  The first one is the
    display pause of [n] seconds.  For each [j < n], when timer [j] fires
    the loop of [scrambleButtons] makes pass [j]: every button is moved
    (with the window and the draws of that moment), and a pause of 2000 ms
    is started; no button has a click handler then.  When the last timer
    fires no pass is made: [memoryTest] runs, every button gets its one
    listener and no timer is left. *)
Theorem round_schedule (g : GameManager) (value : jsstring)
    (rnd : nat -> Q) (n : Z) (fires : list (Browser * (nat -> Q))) :
  reachable g -> timers g = [] ->
  parseInt (trim value) = Num n -> 3 <= n <= 7 ->
  length fires = S (Z.to_nat n) ->
  let g0 := step g (Go value rnd) in
  let after j := run (map fire (firstn j fires)) g0 in
  timers g0 = [mkTimer (Num (n * 1000)) (AfterShow (Num n))]
  /\ length (buttons g0) = Z.to_nat n
  /\ Forall numberVisible (buttons g0)
  /\ noHandlers g0
  /\ (exists env0 r0, nth_error fires 0 = Some (env0, r0)
      /\ forall j env r,
           (j < Z.to_nat n)%nat -> nth_error fires j = Some (env, r) ->
           after (S j)
           = scrambling g0 n j (offsetWidth env0) (offsetHeight env0) env r
           /\ Forall located (buttons (after (S j)))
           /\ noHandlers (after (S j)))
  /\ after (S (Z.to_nat n)) = memoryTest (set_timers [] (after (Z.to_nat n)))
  /\ timers (after (S (Z.to_nat n))) = []
  /\ messageArea (after (S (Z.to_nat n))) = MESSAGES.GAME_STARTED
  /\ length (buttons (after (S (Z.to_nat n)))) = Z.to_nat n
  /\ recallReady (after (S (Z.to_nat n))).
Proof.
  intros R T E Hn L g0 after.
  destruct (initGame_valid_state value rnd g n (reachable_invariant g R) E Hn)
    as (created & Eg & _ & Hid & Hlen & Hfresh).
  rewrite T in Eg; simpl in Eg.
  assert (G0 : g0 = mkGame created MESSAGES.START true []
                      (seq 0 (Z.to_nat n))
                      [mkTimer (Num (n * 1000)) (AfterShow (Num n))])
    by exact Eg.
  assert (HT : timers g0 = [mkTimer (Num (n * 1000)) (AfterShow (Num n))])
    by now rewrite G0.
  assert (HB : length (buttons g0) = Z.to_nat n) by now rewrite G0.
  assert (HF : Forall fresh (buttons g0)) by now rewrite G0.
  assert (HN : forall j w h env r, noHandlers (scrambling g0 n j w h env r)).
  { intros. unfold noHandlers, scrambling; cbn [buttons].
    apply (relocate_handlers env w h r (fun hs => hs = [])).
    now apply fresh_noHandlers. }
  destruct (nth_error fires 0) as [[env0 r0]|] eqn:H0;
    [|apply nth_error_None in H0; lia].
  assert (Sc : forall j env r,
             (j < Z.to_nat n)%nat -> nth_error fires j = Some (env, r) ->
             after (S j)
             = scrambling g0 n j (offsetWidth env0) (offsetHeight env0) env r).
  { intros j env r Hj Hf.
    destruct (fires_scrambling g0 n Hn HB HT fires j env r Hj Hf)
      as (env1 & r1 & H1 & Hrun).
    rewrite H0 in H1. injection H1 as <- <-. exact Hrun. }
  (* the last timer *)
  destruct (nth_error fires (Z.to_nat n)) as [[envl rl]|] eqn:El;
    [|apply nth_error_None in El; lia].
  destruct (nth_error fires (Z.to_nat n - 1)) as [[envp rp]|] eqn:Ep;
    [|apply nth_error_None in Ep; lia].
  assert (Sp : after (Z.to_nat n)
               = scrambling g0 n (Z.to_nat n - 1) (offsetWidth env0)
                            (offsetHeight env0) envp rp).
  { replace (Z.to_nat n) with (S (Z.to_nat n - 1)) at 1 by lia.
    apply Sc; [lia | exact Ep]. }
  assert (Sl : after (S (Z.to_nat n))
               = memoryTest (set_timers [] (after (Z.to_nat n)))).
  { unfold after at 1.
    rewrite (firstn_snoc fires (Z.to_nat n) (envl, rl) El), map_app, run_app.
    fold (after (Z.to_nat n)). rewrite Sp. simpl.
    apply (last_fire g0 n); lia. }
  assert (Hb : buttons (after (S (Z.to_nat n)))
               = map (fun button =>
                        addEventListener CheckClick (set_onclick None button))
                     (relocate envp (offsetWidth env0) (offsetHeight env0) rp 0
                               (map hideNumber created))).
  { rewrite Sl, Sp, G0. reflexivity. }
  assert (Hl : length (buttons (after (S (Z.to_nat n)))) = Z.to_nat n).
  { rewrite Hb, length_map, relocate_length, length_map. exact Hlen. }
  split; [exact HT|]. split; [exact HB|].
  split; [eapply Forall_impl; [|exact HF]; now intros b (H & _)|].
  split.
  { unfold noHandlers. eapply Forall_impl; [|exact HF].
    intros b (_ & _ & Ho & Hl'). unfold handlers. now rewrite Ho. }
  split.
  { exists env0, r0. split; [reflexivity|]. intros j env r Hj Hf.
    split; [now apply Sc|]. rewrite (Sc j env r Hj Hf).
    split; [apply relocate_located | apply HN]. }
  split; [exact Sl|].
  split; [now rewrite Sl|].
  split; [now rewrite Sl|].
  split; [exact Hl|].
  unfold recallReady. rewrite Hl.
  split; [rewrite Sl, Sp, G0; reflexivity|].
  split.
  { rewrite Hb. rewrite map_id_map by reflexivity. rewrite map_id_relocate.
    rewrite map_id_map by reflexivity. exact Hid. }
  split; [rewrite Sl, Sp, G0; reflexivity|].
  rewrite Hb. apply memoryTest_handlers.
  apply (relocate_handlers envp _ _ rp (fun hs => hs = [])).
  now apply fresh_noHandlers.
Qed.

Lemma round_schedule_witness :
  let fires := [(desktop, half); (desktop, half); (desktop, half);
                (desktop, half)] in
  let g0 := step newGameManager (Go (str "3") half) in
  let after j := run (map fire (firstn j fires)) g0 in
  recallReady (after 4%nat) /\ timers (after 4%nat) = []
  /\ messageArea (after 4%nat) = MESSAGES.GAME_STARTED.
Proof.
  intros fires g0 after.
  assert (P : parseInt (trim (str "3")) = Num 3) by reflexivity.
  assert (L : length fires = S (Z.to_nat 3)) by reflexivity.
  assert (B : 3 <= 3 <= 7) by lia.
  pose proof (round_schedule newGameManager (str "3") half 3 fires
                reachable_new eq_refl P B L) as H.
  destruct H as (_ & _ & _ & _ & _ & _ & Ht & Hm & _ & Hr).
  split; [exact Hr|]. split; [exact Ht | exact Hm].
Defined.

(** C8 fails as stated for a round that is started while a timer of
    the round before is pending.  Go with 3 and then Go with 7: when the
    four timers of the first round have fired, the second round still waits
    for its display pause and has made none of its seven passes, yet its
    buttons are blank, have been moved, and have their click handlers. *)
Lemma restarted_round_handlers_early :
  timers restarted = [mkTimer (Num 7000) (AfterShow (Num 7))]
  /\ length (buttons restarted) = 7%nat
  /\ Forall (fun b => handlers b = [CheckClick] /\ located b
                      /\ textContent b = None) (buttons restarted)
  /\ ~ noHandlers restarted.
Proof.
  split; [reflexivity|]. split; [reflexivity|]. split.
  - vm_compute. repeat constructor; eexists _, _; reflexivity.
  - intros H. vm_compute in H. inversion H as [|b bs Hb _]. discriminate Hb.
Qed.

(** ** The guessing game *)

Lemma nth_error_update {A} (f : A -> A) (l : list A) : forall i j,
  nth_error (update i f l) j
  = if Nat.eqb j i then option_map f (nth_error l j) else nth_error l j.
Proof.
  induction l as [|x l IH]; intros [|i] [|j]; simpl; try reflexivity.
  - now destruct (Nat.eqb j i).
  - apply IH.
Qed.

Lemma update_handlers i bs :
  Forall (fun b => handlers b = [CheckClick]) bs ->
  Forall (fun b => handlers b = [CheckClick]) (update i showNumber bs).
Proof.
  intros H. revert i. induction H as [|b bs Hb Hbs IH]; intros [|i]; simpl;
    constructor; auto.
Qed.

Lemma update_length {A} (f : A -> A) (l : list A) : forall i,
  length (update i f l) = length l.
Proof.
  induction l as [|x l IH]; intros [|i]; simpl; auto.
Qed.

(** One more correct click: the button shows its number, its id is
    recorded, and the WIN message appears when the record is complete. *)
Lemma click_expected g k :
  ogOrder g = seq 0 (length (buttons g)) ->
  map id (buttons g) = seq 0 (length (buttons g)) ->
  clickedOrder g = seq 0 k ->
  Forall (fun b => handlers b = [CheckClick]) (buttons g) ->
  (k < length (buttons g))%nat ->
  click k g
  = (if Nat.eqb (S k) (length (buttons g))
     then displayMessage MESSAGES.WIN else fun g => g)
      (set_clickedOrder (seq 0 (S k))
         (set_buttons (update k showNumber (buttons g)) g)).
Proof.
  intros Ho Hi Hc Hh Hk.
  assert (Nk : nth_error (seq 0 (length (buttons g))) k = Some k).
  { rewrite nth_error_seq. now replace (k <? length (buttons g))%nat with true
      by (symmetry; apply Nat.ltb_lt; lia). }
  destruct (nth_error (buttons g) k) as [b|] eqn:Eb;
    [|apply nth_error_None in Eb; lia].
  assert (Ib : id b = k).
  { pose proof (nth_error_map id k (buttons g)) as M.
    rewrite Hi, Nk, Eb in M. simpl in M. congruence. }
  assert (Hb : handlers b = [CheckClick]).
  { rewrite Forall_forall in Hh. apply Hh. eapply nth_error_In; eauto. }
  unfold click. rewrite Eb, Hb. cbn [fold_left invoke].
  unfold checkClick. rewrite Eb, Hc, length_seq, Ho, Nk, Ib.
  cbn [sameId]. rewrite Nat.eqb_refl.
  cbn [clickedOrder ogOrder set_clickedOrder set_buttons].
  assert (Sk : seq 0 k ++ [k] = seq 0 (S k)) by (now rewrite seq_S).
  rewrite Hc, Ho, Sk, !length_seq.
  destruct (Nat.eqb (S k) (length (buttons g))); reflexivity.
Qed.

(** The state after the first [k] buttons have been clicked in order. *)
Lemma clicks_in_order g :
  recallReady g ->
  forall k, (k <= length (buttons g))%nat ->
    let gk := run (map Click (seq 0 k)) g in
    ogOrder gk = ogOrder g
    /\ length (buttons gk) = length (buttons g)
    /\ map id (buttons gk) = seq 0 (length (buttons g))
    /\ clickedOrder gk = seq 0 k
    /\ Forall (fun b => handlers b = [CheckClick]) (buttons gk)
    /\ (forall j b, (j < k)%nat -> nth_error (buttons gk) j = Some b ->
          numberVisible b)
    /\ messageArea gk
       = (if Nat.ltb 0 k && Nat.eqb k (length (buttons g))
          then MESSAGES.WIN else messageArea g).
Proof.
  intros (Ho & Hi & Hc & Hh). induction k as [|k IH]; intros Hk gk.
  - subst gk; simpl. repeat split; auto. intros j b Hj; lia.
  - assert (Erun : gk = click k (run (map Click (seq 0 k)) g))
      by (subst gk; rewrite seq_S, map_app, run_app; reflexivity).
    rewrite Erun. clear Erun gk.
    destruct (IH ltac:(lia)) as (Ko & Kl & Ki & Kc & Kh & Kv & Km).
    set (gk := run (map Click (seq 0 k)) g) in *.
    rewrite <- Kl in Ki.
    assert (Ko' : ogOrder gk = seq 0 (length (buttons gk)))
      by (rewrite Ko, Kl; exact Ho).
    rewrite (click_expected gk k Ko' Ki Kc Kh ltac:(lia)).
    rewrite Kl in *.
    assert (Km' : messageArea gk = messageArea g).
    { rewrite Km. replace (Nat.eqb k (length (buttons g))) with false
        by (symmetry; apply Nat.eqb_neq; lia).
      now rewrite andb_false_r. }
    assert (V : forall j b, (j < S k)%nat ->
              nth_error (update k showNumber (buttons gk)) j = Some b ->
              numberVisible b).
    { intros j b Hj. rewrite nth_error_update.
      destruct (Nat.eqb j k) eqn:Ejk.
      - destruct (nth_error (buttons gk) j) as [b0|]; [|discriminate].
        simpl. intros [= <-]. reflexivity.
      - apply Nat.eqb_neq in Ejk. apply Kv. lia. }
    change (Nat.ltb 0 (S k)) with true. rewrite andb_true_l.
    destruct (Nat.eqb (S k) (length (buttons g)));
      cbn [displayMessage set_clickedOrder set_buttons buttons ogOrder
           clickedOrder messageArea];
      rewrite ?update_length, ?map_id_update by reflexivity;
      repeat split; auto using update_handlers.
Qed.

Lemma firstn_seq_le k : forall start len,
  (k <= len)%nat -> firstn k (seq start len) = seq start k.
Proof.
  induction k as [|k IH]; intros start [|len] H; simpl; try reflexivity;
    [lia|]. f_equal. apply IH. lia.
Qed.




(** ** After a wrong click *)

(** A wrong click shows the LOSE message, reveals every number and clears
    every [onclick] property.  The recorded clicks stay as they were, and so
    do the listeners that [memoryTest] registered with
    [addEventListener]. *)
Lemma checkClick_mismatch i g button :
  nth_error (buttons g) i = Some button ->
  sameId (id button) (nth_error (ogOrder g) (length (clickedOrder g))) = false ->
  let g' := checkClick i g in
  messageArea g' = MESSAGES.LOSE
  /\ Forall numberVisible (buttons g')
  /\ Forall (fun b => onclick b = None) (buttons g')
  /\ map listeners (buttons g') = map listeners (buttons g)
  /\ clickedOrder g' = clickedOrder g
  /\ ogOrder g' = ogOrder g.
Proof.
  intros Eb Hs. unfold checkClick. rewrite Eb, Hs. cbn.
  repeat split.
  - rewrite Forall_forall. intros b Hb.
    apply in_map_iff in Hb. destruct Hb as (b1 & <- & Hb).
    apply in_map_iff in Hb. destruct Hb as (b0 & <- & _). reflexivity.
  - rewrite Forall_forall. intros b Hb.
    apply in_map_iff in Hb. destruct Hb as (b1 & <- & _). reflexivity.
  - rewrite !map_map. apply map_ext. reflexivity.
Qed.

(** C1, at a failing input.  In the guessing game of a three-button round
    the button with id 1 is clicked first: the LOSE message is shown and all
    numbers are revealed, but every button still has its listener, and the
    next click, on the button with id 0, is recorded. *)
Theorem lost_round_records_click :
  let g1 := step recall3 (Click 1) in
  clickedOrder recall3 = []
  /\ messageArea g1 = MESSAGES.LOSE
  /\ Forall numberVisible (buttons g1)
  /\ Forall (fun b => onclick b = None /\ listeners b = [CheckClick])
       (buttons g1)
  /\ clickedOrder g1 = []
  /\ clickedOrder (step g1 (Click 0)) = [0%nat].
Proof.
  vm_compute. repeat split; repeat constructor.
Qed.

(** C3, at failing inputs.  After the three buttons have been clicked in
    order the WIN message is shown; one more click on any button replaces it
    by the LOSE message.  After a wrong first click the LOSE message is
    shown; clicking the three buttons in order then fills the record and
    shows the WIN message. *)
Theorem finished_round_reacts_to_clicks :
  let won := run [Click 0; Click 1; Click 2] recall3 in
  let lost := step recall3 (Click 1) in
  messageArea won = MESSAGES.WIN
  /\ messageArea (step won (Click 0)) = MESSAGES.LOSE
  /\ messageArea lost = MESSAGES.LOSE
  /\ clickedOrder lost = []
  /\ clickedOrder (run [Click 0; Click 1; Click 2] lost)
     = [0; 1; 2]%nat
  /\ messageArea (run [Click 0; Click 1; Click 2] lost) = MESSAGES.WIN.
Proof.
  vm_compute. repeat split.
Qed.

(** C7, at a failing input.  The original order of the three-button round
    is 0, 1, 2 and the record is empty when the guessing game starts; after
    a wrong click on the button with id 2 the clicks on the buttons with ids
    0 and 1 are recorded all the same. *)
Theorem mismatch_does_not_end_recording :
  let lost := step recall3 (Click 2) in
  ogOrder recall3 = [0; 1; 2]%nat
  /\ clickedOrder recall3 = []
  /\ messageArea lost = MESSAGES.LOSE
  /\ clickedOrder lost = []
  /\ clickedOrder (run [Click 0; Click 1] lost) = [0; 1]%nat.
Proof.
  vm_compute. repeat split.
Qed.

(** ** Clicks and restarts during a round *)

(** While no handler is attached, a click does nothing. *)
Lemma click_noHandlers i g : noHandlers g -> click i g = g.
Proof.
  intros H. unfold click.
  destruct (nth_error (buttons g) i) as [b|] eqn:E; [|reflexivity].
  unfold noHandlers in H. rewrite Forall_forall in H.
  rewrite (H b (nth_error_In _ _ E)). reflexivity.
Qed.

(** [initGame] leaves the pending timers of an earlier round in place.
    When Go is clicked again before the first round is over, the coroutine
    of the first round goes on with the buttons of the second one: here it
    attaches the listeners while the second round still waits for its
    display pause. *)
Example restart_keeps_old_timers :
  timers restarted = [mkTimer (Num 7000) (AfterShow (Num 7))]
  /\ length (buttons restarted) = 7%nat
  /\ Forall (fun b => handlers b = [CheckClick]) (buttons restarted).
Proof.
  vm_compute. repeat split; repeat constructor.
Qed.

(** ** More on submitting the input *)

Lemma valid_or_invalid x :
  (exists n, x = Num n /\ 3 <= n <= 7) \/ invalid x.
Proof.
  destruct x as [|z]; [right; now left|].
  destruct (Z_lt_dec z 3); [right; right; exists z; split; auto|].
  destruct (Z_lt_dec 7 z); [right; right; exists z; split; auto|].
  left. exists z. split; [reflexivity|lia].
Qed.

Lemma invalid_not_valid x n : invalid x -> x = Num n -> 3 <= n <= 7 -> False.
Proof.
  intros [->|(z & -> & Hz)] E Hn; [discriminate|].
  injection E as ->. lia.
Qed.

(** X1: after a click on Go, [gameInProgress] is true exactly when the
    trimmed field parses to an integer from 3 to 7, and exactly then the
    START message is shown. *)
Theorem initGame_inProgress_iff (value : jsstring) (rnd : nat -> Q)
    (g : GameManager) :
  let g' := initGame value rnd g in
  (gameInProgress g' = true
     <-> exists n, parseInt (trim value) = Num n /\ 3 <= n <= 7)
  /\ (messageArea g' = MESSAGES.START
     <-> exists n, parseInt (trim value) = Num n /\ 3 <= n <= 7).
Proof.
  intros g'. subst g'.
  destruct (valid_or_invalid (parseInt (trim value))) as [(n & E & Hn)|Hv].
  - rewrite (initGame_valid_eq value rnd g n E Hn). simpl.
    split; (split; [intros _; eauto | reflexivity]).
  - rewrite (initGame_invalid_eq value rnd g Hv).
    split; split.
    + destruct (gameInProgress g) eqn:P; simpl; rewrite ?P; discriminate.
    + intros (n & E & Hn). exfalso. eapply invalid_not_valid; eauto.
    + destruct Hv as [E|(z & E & _)]; rewrite E; simpl; discriminate.
    + intros (n & E & Hn). exfalso. eapply invalid_not_valid; eauto.
Qed.

(** X2: [initGame] never cancels a timer.  The timers that were pending
    stay pending, in order; a valid submission adds the display pause of the
    new round behind them, a rejected one adds nothing. *)
Theorem initGame_keeps_timers (value : jsstring) (rnd : nat -> Q)
    (g : GameManager) :
  let userValue := parseInt (trim value) in
  exists added,
    timers (initGame value rnd g) = timers g ++ added
    /\ (invalid userValue -> added = [])
    /\ (forall n, userValue = Num n -> 3 <= n <= 7 ->
          added = [mkTimer (Num (n * 1000)) (AfterShow (Num n))]).
Proof.
  intros userValue. subst userValue.
  destruct (valid_or_invalid (parseInt (trim value))) as [(n & E & Hn)|Hv].
  - exists [mkTimer (Num (n * 1000)) (AfterShow (Num n))].
    rewrite (initGame_valid_eq value rnd g n E Hn).
    split; [destruct (gameInProgress g); reflexivity|].
    split.
    + intros Hv. exfalso. eapply invalid_not_valid; eauto.
    + intros m Em _. rewrite E in Em. now injection Em as ->.
  - exists []. rewrite (initGame_invalid_eq value rnd g Hv), app_nil_r.
    split; [destruct (gameInProgress g); reflexivity|].
    split; [reflexivity|].
    intros n E Hn. exfalso. eapply invalid_not_valid; eauto.
Qed.

Lemma trimStart_allWhiteSpace s : allWhiteSpace s -> trimStart s = [].
Proof.
  induction 1 as [|c s Hc _ IH]; simpl; [reflexivity|]. now rewrite Hc.
Qed.

(** X3: a field that is empty or holds only white space is rejected with
    the wrong-type message; no button is made and no timer is started, and a
    round that was in progress is cleared. *)
Theorem blank_input_rejected (value : jsstring) (rnd : nat -> Q)
    (g : GameManager) :
  allWhiteSpace value ->
  initGame value rnd g
  = displayMessage MESSAGES.WRONG_INPUT_TYPE
      (if gameInProgress g then cleared g else g).
Proof.
  intros Hws.
  assert (E : parseInt (trim value) = NaN).
  { unfold trim. now rewrite (trimStart_allWhiteSpace value Hws). }
  rewrite (initGame_invalid_eq value rnd g) by (now left).
  now rewrite E.
Qed.

Lemma blank_input_rejected_witness :
  initGame (str "  ") half recall3
  = displayMessage MESSAGES.WRONG_INPUT_TYPE
      (if gameInProgress recall3 then cleared recall3 else recall3).
Proof.
  apply (blank_input_rejected (str "  ") half recall3).
  repeat constructor.
Defined.

Lemma digitValue_nonneg c d : digitValue c = Some d -> 0 <= d.
Proof.
  unfold digitValue.
  destruct ((48 <=? c) && (c <=? 57))%N eqn:A.
  { intros [= <-]. apply andb_true_iff in A. destruct A as [A _].
    apply N.leb_le in A. lia. }
  destruct ((97 <=? c) && (c <=? 122))%N eqn:B.
  { intros [= <-]. apply andb_true_iff in B. destruct B as [B _].
    apply N.leb_le in B. lia. }
  destruct ((65 <=? c) && (c <=? 90))%N eqn:C; [|discriminate].
  intros [= <-]. apply andb_true_iff in C. destruct C as [C _].
  apply N.leb_le in C. lia.
Qed.

Lemma digitPrefix_nonneg R s : Forall (fun d => 0 <= d) (digitPrefix R s).
Proof.
  induction s as [|c s IH]; simpl; [constructor|].
  unfold radixDigit. destruct (digitValue c) as [d|] eqn:E; [|constructor].
  destruct (d <? R); constructor; [|exact IH].
  now apply digitValue_nonneg in E.
Qed.

Lemma mathInt_nonneg R ds :
  0 <= R -> Forall (fun d => 0 <= d) ds -> 0 <= mathInt R ds.
Proof.
  intros HR H. unfold mathInt.
  assert (G : forall acc, 0 <= acc ->
              0 <= fold_left (fun a d => a * R + d) ds acc).
  { induction H as [|d ds Hd _ IH]; intros acc Ha; simpl; [exact Ha|].
    apply IH. nia. }
  apply G. lia.
Qed.

Lemma stripPrefix_radix s : fst (stripPrefix s) = 10 \/ fst (stripPrefix s) = 16.
Proof.
  destruct s as [|c0 [|c1 r]]; simpl; auto.
  destruct (_ && _); simpl; auto.
Qed.

(** What [parseInt] makes of a string that starts with a minus sign. *)
Lemma parseInt_minus r : invalid (parseInt (45%N :: r)).
Proof.
  unfold parseInt. rewrite trimStart_keep by reflexivity.
  change (stripSign (45%N :: r)) with (-1, r). cbv beta iota.
  destruct (stripPrefix r) as [R s2] eqn:E. cbv beta iota.
  pose proof (stripPrefix_radix r) as HR. rewrite E in HR; simpl in HR.
  pose proof (digitPrefix_nonneg R s2) as Hd.
  destruct (digitPrefix R s2) as [|d ds] eqn:D; [now left|].
  right. eexists. split; [reflexivity|]. left.
  pose proof (mathInt_nonneg R (d :: ds) ltac:(lia) Hd). lia.
Qed.

(** X4: a field whose first character after white space is a minus sign
    never starts a round: the parsed value is [NaN] or at most 0, so the
    validator rejects it. *)
Theorem minus_input_rejected (ws rest : jsstring) (rnd : nat -> Q)
    (g : GameManager) :
  allWhiteSpace ws ->
  let value := ws ++ 45%N :: rest in
  let g' := initGame value rnd g in
  invalid (parseInt (trim value))
  /\ gameInProgress g' = false
  /\ timers g' = timers g
  /\ (messageArea g' = MESSAGES.WRONG_INPUT_TYPE
      \/ messageArea g' = MESSAGES.NOT_IN_RANGE).
Proof.
  intros Hws value g'.
  assert (T : trim value = 45%N :: trimEnd rest).
  { unfold value, trim. rewrite trimStart_skip by exact Hws.
    rewrite trimStart_keep by reflexivity.
    apply (trimEnd_app [] 45%N rest). reflexivity. }
  assert (Hv : invalid (parseInt (trim value)))
    by (rewrite T; apply parseInt_minus).
  split; [exact Hv|]. subst g'.
  rewrite (initGame_invalid_eq value rnd g Hv).
  destruct (gameInProgress g) eqn:P; simpl; rewrite ?P; repeat split; auto;
    destruct (parseInt (trim value)); simpl; auto.
Qed.

Lemma minus_input_rejected_witness :
  let value := str " " ++ 45%N :: str "4" in
  let g' := initGame value half newGameManager in
  invalid (parseInt (trim value))
  /\ gameInProgress g' = false
  /\ timers g' = timers newGameManager
  /\ (messageArea g' = MESSAGES.WRONG_INPUT_TYPE
      \/ messageArea g' = MESSAGES.NOT_IN_RANGE).
Proof.
  apply (minus_input_rejected (str " ") (str "4") half newGameManager).
  repeat constructor.
Defined.

Lemma radixDigit_digit d : 0 <= d <= 9 -> radixDigit 10 (digit d) = Some d.
Proof.
  intros Hd. unfold digit.
  assert (C : d = 0 \/ d = 1 \/ d = 2 \/ d = 3 \/ d = 4 \/ d = 5 \/ d = 6
              \/ d = 7 \/ d = 8 \/ d = 9) by lia.
  repeat (destruct C as [C|C]; [subst; reflexivity|]); subst; reflexivity.
Qed.

Lemma digitPrefix_digits ds rest :
  Forall (fun d => 0 <= d <= 9) ds -> noDigitAhead rest ->
  digitPrefix 10 (map digit ds ++ rest) = ds.
Proof.
  intros Hds Hr. induction Hds as [|d ds Hd _ IH]; cbn [map app digitPrefix].
  - destruct rest as [|c r]; [reflexivity|].
    cbn [digitPrefix]. unfold noDigitAhead in Hr. now rewrite Hr.
  - now rewrite (radixDigit_digit d Hd), IH.
Qed.

(** A string of decimal digits, not cut short by a radix prefix, is read as
    the number it writes. *)
Lemma parseInt_digits ds rest :
  ds <> [] -> Forall (fun d => 0 <= d <= 9) ds ->
  noDigitAhead rest -> noRadixMark ds rest ->
  parseInt (map digit ds ++ rest) = Num (mathInt 10 ds).
Proof.
  intros Hne Hds Hr Hx.
  destruct ds as [|d1 ds']; [congruence|]. clear Hne.
  assert (H1 : 0 <= d1 <= 9) by (inversion Hds; assumption).
  pose proof (digit_range d1 H1) as Hc.
  set (s := map digit (d1 :: ds') ++ rest).
  assert (T : trimStart s = s).
  { subst s; simpl. now rewrite (isWhiteSpace_digit d1 H1). }
  assert (Sg : stripSign s = (1, s)).
  { subst s; simpl.
    replace (digit d1 =? 45)%N with false by (symmetry; apply N.eqb_neq; lia).
    replace (digit d1 =? 43)%N with false by (symmetry; apply N.eqb_neq; lia).
    reflexivity. }
  assert (X : stripPrefix s = (10, s)).
  { subst s. destruct ds' as [|d2 ds'']; simpl.
    - destruct rest as [|c r]; [reflexivity|]. simpl.
      destruct (Z.eq_dec d1 0) as [->|Hnz].
      + destruct (Hx eq_refl) as [A B].
        replace (c =? 120)%N with false by (symmetry; now apply N.eqb_neq).
        replace (c =? 88)%N with false by (symmetry; now apply N.eqb_neq).
        now rewrite andb_false_r.
      + replace (digit d1 =? 48)%N with false
          by (symmetry; apply N.eqb_neq; unfold digit; lia).
        reflexivity.
    - assert (H2 : 0 <= d2 <= 9)
        by (inversion Hds as [|? ? _ Hds']; inversion Hds'; assumption).
      pose proof (digit_range d2 H2) as Hc2.
      replace (digit d2 =? 120)%N with false
        by (symmetry; apply N.eqb_neq; lia).
      replace (digit d2 =? 88)%N with false
        by (symmetry; apply N.eqb_neq; lia).
      now rewrite andb_false_r. }
  unfold parseInt. rewrite T, Sg, X. subst s.
  rewrite (digitPrefix_digits _ rest Hds Hr).
  f_equal. lia.
Qed.

Lemma trim_decimal ws ds rest :
  allWhiteSpace ws -> ds <> [] -> Forall (fun d => 0 <= d <= 9) ds ->
  trim (decimal ws ds rest) = map digit ds ++ trimEnd rest.
Proof.
  intros Hws Hne Hds. unfold trim, decimal.
  rewrite trimStart_skip by exact Hws.
  destruct (exists_last Hne) as (ds' & dl & ->).
  assert (Hl : 0 <= dl <= 9).
  { rewrite Forall_forall in Hds. apply Hds, in_or_app. right. now left. }
  assert (Hf : trimStart ((map digit (ds' ++ [dl])) ++ rest)
               = map digit (ds' ++ [dl]) ++ rest).
  { destruct ds' as [|d1 ds'']; simpl.
    - now rewrite (isWhiteSpace_digit dl Hl).
    - assert (H1 : 0 <= d1 <= 9)
        by (rewrite Forall_forall in Hds; apply Hds; now left).
      now rewrite (isWhiteSpace_digit d1 H1). }
  rewrite Hf, map_app, <- !app_assoc. simpl.
  apply trimEnd_app. now apply isWhiteSpace_digit.
Qed.

Lemma noRadixMark_trimEnd ds rest :
  noRadixMark ds rest -> noRadixMark ds (trimEnd rest).
Proof.
  intros H E. specialize (H E).
  destruct (trimEnd_prefix rest) as [t Ht].
  destruct (trimEnd rest) as [|c r]; [exact I|].
  rewrite Ht in H. exact H.
Qed.

(** X5: a field that holds a whole number written in decimal digits whose
    value is below 3 or above 7 (0, 2, 8, 10, 35, ...) is rejected with the
    out-of-range message; no button is made and no timer is started, and a
    round that was in progress is cleared. *)
Theorem decimal_out_of_range_rejected (ws : jsstring) (ds : list Z)
    (rest : jsstring) (rnd : nat -> Q) (g : GameManager) :
  allWhiteSpace ws ->
  ds <> [] -> Forall (fun d => 0 <= d <= 9) ds ->
  noDigitAhead rest -> noRadixMark ds rest ->
  mathInt 10 ds < 3 \/ 7 < mathInt 10 ds ->
  initGame (decimal ws ds rest) rnd g
  = displayMessage MESSAGES.NOT_IN_RANGE
      (if gameInProgress g then cleared g else g).
Proof.
  intros Hws Hne Hds Hr Hx Hv.
  assert (E : parseInt (trim (decimal ws ds rest)) = Num (mathInt 10 ds)).
  { rewrite trim_decimal by assumption.
    apply parseInt_digits; auto using noDigitAhead_trimEnd, noRadixMark_trimEnd. }
  rewrite (initGame_invalid_eq (decimal ws ds rest) rnd g), E; [reflexivity|].
  right. exists (mathInt 10 ds). now split.
Qed.

Lemma decimal_out_of_range_rejected_witness :
  decimal [] [1; 0] [] = str "10"
  /\ initGame (decimal [] [1; 0] []) half recall3
     = displayMessage MESSAGES.NOT_IN_RANGE
         (if gameInProgress recall3 then cleared recall3 else recall3).
Proof.
  split; [reflexivity|].
  apply (decimal_out_of_range_rejected [] [1; 0] [] half recall3).
  - constructor.
  - discriminate.
  - repeat constructor; lia.
  - exact I.
  - discriminate.
  - right. vm_compute. reflexivity.
Defined.

(** ** More on creating the buttons *)

(** With no colour left every new button gets the colour [undefined]. *)
Lemma makeButtonLoop_exhausted rnd count : forall i bs,
  makeButtonLoop count i rnd [] bs
  = bs ++ map (fun j => showNumber (newGameButton j None)) (seq i count).
Proof.
  induction count as [|count IH]; intros i bs; simpl.
  - now rewrite app_nil_r.
  - assert (E : nth_error (@nil string) (randomIndex (rnd i) 0) = None)
      by now destruct (randomIndex (rnd i) 0).
    assert (F : splice1 (randomIndex (rnd i) 0) (@nil string) = [])
      by (unfold splice1; now rewrite firstn_nil, skipn_nil).
    rewrite E, F, IH, <- app_assoc. reflexivity.
Qed.

(** The first [c1] iterations take [c1] colours out of the available ones;
    the loop goes on with the colours that are left. *)
Lemma makeButtonLoop_uses rnd (Hrnd : unitDraws rnd) c2 c1 :
  forall i availableColors bs,
    (c1 <= length availableColors)%nat ->
    exists created cs left,
      makeButtonLoop (c1 + c2) i rnd availableColors bs
      = makeButtonLoop c2 (c1 + i) rnd left (bs ++ created)
      /\ map id created = seq i c1
      /\ map color created = map Some cs
      /\ Forall numberVisible created
      /\ Permutation (cs ++ left) availableColors.
Proof.
  induction c1 as [|c1 IH]; intros i colors bs L.
  - exists [], [], colors. simpl. rewrite app_nil_r.
    repeat split; auto.
  - cbn [Nat.add makeButtonLoop].
    set (idx := randomIndex (rnd i) (length colors)).
    assert (Hidx : (idx < length colors)%nat)
      by (apply randomIndex_lt; [apply Hrnd | lia]).
    destruct (nth_error colors idx) as [c|] eqn:E;
      [|apply nth_error_None in E; lia].
    destruct (splice1_split idx colors c E) as (l1 & l2 & Ec & Es).
    pose proof (splice1_length idx colors c E) as Hlen.
    destruct (IH (S i) (splice1 idx colors)
                 (bs ++ [showNumber (newGameButton i (Some c))])
                 ltac:(lia))
      as (created & cs & left & -> & Hid & Hcol & Hvis & Hperm).
    exists (showNumber (newGameButton i (Some c)) :: created), (c :: cs), left.
    rewrite <- app_assoc. simpl.
    replace (c1 + S i)%nat with (S (c1 + i)) by lia.
    repeat split.
    + now rewrite Hid.
    + now rewrite Hcol.
    + constructor; [reflexivity | exact Hvis].
    + rewrite Ec. rewrite Es in Hperm. now apply Permutation_cons_app.
Qed.

Lemma exhausted_colours i k :
  map color (map (fun j => showNumber (newGameButton j None)) (seq i k))
  = repeat None k
  /\ map id (map (fun j => showNumber (newGameButton j None)) (seq i k))
     = seq i k.
Proof.
  revert i. induction k as [|k IH]; intros i; simpl; [now split|].
  destruct (IH (S i)) as [A B]. now rewrite A, B.
Qed.

(** X6: [makeButton(n)] with [n >= 7] uses every colour of the palette
    exactly once, for the first seven buttons; the buttons after the seventh
    get no colour ([undefined]).  The ids still count up from 0 and every
    number is shown. *)
Theorem makeButton_uses_palette (n : Z) (rnd : nat -> Q) (g : GameManager) :
  unitDraws rnd -> 7 <= n ->
  exists created cs,
    buttons (makeButton (Num n) rnd g) = buttons g ++ created
    /\ map id created = seq 0 (Z.to_nat n)
    /\ map color created = map Some cs ++ repeat None (Z.to_nat n - 7)
    /\ Permutation cs STYLE_CONFIG.BUTTON_COLORS
    /\ Forall numberVisible created.
Proof.
  intros Hrnd Hn. unfold makeButton; cbn [buttons set_buttons iterations].
  set (k := (Z.to_nat n - 7)%nat).
  replace (Z.to_nat n) with (7 + k)%nat by (subst k; lia).
  destruct (makeButtonLoop_uses rnd Hrnd k 7 0%nat
              STYLE_CONFIG.BUTTON_COLORS (buttons g) ltac:(simpl; lia))
    as (created & cs & left & -> & Hid & Hcol & Hvis & Hperm).
  assert (Lcs : length cs = 7%nat).
  { rewrite <- (length_map Some), <- Hcol, length_map, <- (length_map id), Hid.
    apply length_seq. }
  assert (left = []) as ->.
  { apply Permutation_length in Hperm. rewrite length_app, Lcs in Hperm.
    simpl in Hperm. destruct left; [reflexivity | simpl in Hperm; lia]. }
  rewrite app_nil_r in Hperm.
  rewrite makeButtonLoop_exhausted, <- app_assoc.
  destruct (exhausted_colours (7 + 0) k) as [A B].
  eexists (created ++ _), cs. split; [reflexivity|].
  rewrite !map_app, A, B, Hid, Hcol.
  split; [now rewrite seq_app|]. split; [reflexivity|]. split; [exact Hperm|].
  apply Forall_app. split; [exact Hvis|].
  apply Forall_forall. intros b Hb. apply in_map_iff in Hb.
  destruct Hb as (j & <- & _). reflexivity.
Qed.

Lemma makeButton_uses_palette_witness :
  exists created cs,
    buttons (makeButton (Num 9) half newGameManager)
    = buttons newGameManager ++ created
    /\ map id created = seq 0 (Z.to_nat 9)
    /\ map color created = map Some cs ++ repeat None (Z.to_nat 9 - 7)
    /\ Permutation cs STYLE_CONFIG.BUTTON_COLORS
    /\ Forall numberVisible created.
Proof.
  apply (makeButton_uses_palette 9 half newGameManager); [|lia].
  intros j; split; [discriminate | reflexivity].
Defined.

(** ** What clicks and timers leave alone *)

Lemma map_update_same {A B} (f : A -> B) (h : A -> A) (l : list A) :
  (forall x, f (h x) = f x) -> forall i, map f (update i h l) = map f l.
Proof.
  intros H. induction l as [|x l IH]; intros [|i]; simpl;
    rewrite ?H, ?IH; reflexivity.
Qed.

Lemma map_map_same {A B} (f : A -> B) (h : A -> A) (l : list A) :
  (forall x, f (h x) = f x) -> map f (map h l) = map f l.
Proof. intros H. rewrite map_map. now apply map_ext. Qed.

Lemma map_relocate_same {B} (f : GameButton -> B) env w h rnd bs :
  (forall x y b, f (setLocation x y b) = f b) ->
  forall k, map f (relocate env w h rnd k bs) = map f bs.
Proof.
  intros H. induction bs as [|b bs IH]; intros k; cbn [relocate map];
    [reflexivity|]. now rewrite H, IH.
Qed.

Lemma checkClick_frame i g :
  let g' := checkClick i g in
  map id (buttons g') = map id (buttons g)
  /\ map color (buttons g') = map color (buttons g)
  /\ map location (buttons g') = map location (buttons g)
  /\ map listeners (buttons g') = map listeners (buttons g)
  /\ ogOrder g' = ogOrder g
  /\ gameInProgress g' = gameInProgress g
  /\ timers g' = timers g
  /\ (exists more, clickedOrder g' = clickedOrder g ++ more)
  /\ (messageArea g' = messageArea g \/ messageArea g' = MESSAGES.WIN
      \/ messageArea g' = MESSAGES.LOSE).
Proof.
  unfold checkClick.
  destruct (nth_error (buttons g) i) as [button|].
  2:{ cbv zeta. repeat split; auto. exists []. now rewrite app_nil_r. }
  destruct (sameId _ _).
  - cbn [set_buttons set_clickedOrder buttons clickedOrder ogOrder].
    destruct (Nat.eqb _ _); cbn;
      rewrite !map_update_same by reflexivity;
      repeat split; eauto.
  - cbn. rewrite !map_map_same by reflexivity.
    repeat split; auto. exists []. now rewrite app_nil_r.
Qed.

Lemma click_keeps (i : nat) (g : GameManager) :
  let g' := click i g in
  map id (buttons g') = map id (buttons g)
  /\ map color (buttons g') = map color (buttons g)
  /\ map location (buttons g') = map location (buttons g)
  /\ map listeners (buttons g') = map listeners (buttons g)
  /\ ogOrder g' = ogOrder g
  /\ gameInProgress g' = gameInProgress g
  /\ timers g' = timers g
  /\ (exists more, clickedOrder g' = clickedOrder g ++ more)
  /\ (messageArea g' = messageArea g \/ messageArea g' = MESSAGES.WIN
      \/ messageArea g' = MESSAGES.LOSE).
Proof.
  unfold click. destruct (nth_error (buttons g) i) as [b|].
  2:{ cbv zeta. repeat split; auto. exists []. now rewrite app_nil_r. }
  generalize (handlers b) as hs. intros hs.
  assert (G : forall g0,
    map id (buttons g0) = map id (buttons g)
    /\ map color (buttons g0) = map color (buttons g)
    /\ map location (buttons g0) = map location (buttons g)
    /\ map listeners (buttons g0) = map listeners (buttons g)
    /\ ogOrder g0 = ogOrder g
    /\ gameInProgress g0 = gameInProgress g
    /\ timers g0 = timers g
    /\ (exists more, clickedOrder g0 = clickedOrder g ++ more)
    /\ (messageArea g0 = messageArea g \/ messageArea g0 = MESSAGES.WIN
        \/ messageArea g0 = MESSAGES.LOSE) ->
    let g' := fold_left (invoke i) hs g0 in
    map id (buttons g') = map id (buttons g)
    /\ map color (buttons g') = map color (buttons g)
    /\ map location (buttons g') = map location (buttons g)
    /\ map listeners (buttons g') = map listeners (buttons g)
    /\ ogOrder g' = ogOrder g
    /\ gameInProgress g' = gameInProgress g
    /\ timers g' = timers g
    /\ (exists more, clickedOrder g' = clickedOrder g ++ more)
    /\ (messageArea g' = messageArea g \/ messageArea g' = MESSAGES.WIN
        \/ messageArea g' = MESSAGES.LOSE)).
  { induction hs as [|[] hs IH]; intros g0 H; [exact H|].
    cbn [fold_left invoke]. apply IH.
    destruct H as (A1 & A2 & A3 & A4 & A5 & A6 & A7 & (m1 & A8) & A9).
    destruct (checkClick_frame i g0)
      as (B1 & B2 & B3 & B4 & B5 & B6 & B7 & (m2 & B8) & B9).
    rewrite B1, B2, B3, B4, B5, B6, B7, B8, A8, <- app_assoc.
    repeat split; eauto. intuition congruence. }
  apply G. repeat split; auto. exists []. now rewrite app_nil_r.
Qed.

(** X7: clicks on buttons, however many, change nothing but the texts of
    the buttons, their [onclick] properties, the message (to WIN or LOSE)
    and the record of clicks, which can only grow.  The buttons keep their
    ids, colours, positions and registered listeners; the original order,
    the pending timers and [gameInProgress] stay as they are. *)
Theorem clicks_frame (clicks : list nat) (g : GameManager) :
  let g' := run (map Click clicks) g in
  map id (buttons g') = map id (buttons g)
  /\ map color (buttons g') = map color (buttons g)
  /\ map location (buttons g') = map location (buttons g)
  /\ map listeners (buttons g') = map listeners (buttons g)
  /\ ogOrder g' = ogOrder g
  /\ gameInProgress g' = gameInProgress g
  /\ timers g' = timers g
  /\ (exists more, clickedOrder g' = clickedOrder g ++ more)
  /\ (messageArea g' = messageArea g \/ messageArea g' = MESSAGES.WIN
      \/ messageArea g' = MESSAGES.LOSE).
Proof.
  induction clicks as [|i clicks IH] using rev_ind.
  - cbn. repeat split; auto. exists []. now rewrite app_nil_r.
  - rewrite map_app, run_app. cbn [map run fold_left step].
    cbv zeta in IH.
    destruct IH as (A1 & A2 & A3 & A4 & A5 & A6 & A7 & (m1 & A8) & A9).
    destruct (click_keeps i (run (map Click clicks) g))
      as (B1 & B2 & B3 & B4 & B5 & B6 & B7 & (m2 & B8) & B9).
    cbv zeta. fold (run (map Click clicks) g).
    rewrite B1, B2, B3, B4, B5, B6, B7, B8, A8, <- app_assoc.
    repeat split; eauto. intuition congruence.
Qed.

Lemma scrambleLoop_frame times i w h env rnd g :
  let g' := scrambleLoop times i w h env rnd g in
  map id (buttons g') = map id (buttons g)
  /\ map color (buttons g') = map color (buttons g)
  /\ map textContent (buttons g') = map textContent (buttons g)
  /\ ogOrder g' = ogOrder g
  /\ clickedOrder g' = clickedOrder g
  /\ gameInProgress g' = gameInProgress g
  /\ (timers g' = timers g
      \/ timers g' = timers g ++ [mkTimer (Num 2000) (InScramble times i w h)])
  /\ (messageArea g' = messageArea g
      \/ messageArea g' = MESSAGES.GAME_STARTED).
Proof.
  unfold scrambleLoop. destruct (lessThan _ _); cbn.
  - rewrite !map_relocate_same by reflexivity. repeat split; auto.
  - rewrite !map_map_same by reflexivity. repeat split; auto.
Qed.

Lemma splice1_In {A} (x : A) l : forall k, In x (splice1 k l) -> In x l.
Proof.
  unfold splice1. induction l as [|y l IH]; intros k H.
  - rewrite firstn_nil, skipn_nil in H. exact H.
  - destruct k as [|k]; simpl in H.
    + now right.
    + destruct H as [H|H]; [now left|]. right. now apply (IH k).
Qed.

Lemma splice1_shorter {A} (l : list A) k x :
  nth_error l k = Some x -> S (length (splice1 k l)) = length l.
Proof. apply splice1_length. Qed.

Lemma timeout_keeps (k : nat) (env : Browser) (rnd : nat -> Q)
    (g : GameManager) :
  let g' := timeout k env rnd g in
  map id (buttons g') = map id (buttons g)
  /\ map color (buttons g') = map color (buttons g)
  /\ ogOrder g' = ogOrder g
  /\ clickedOrder g' = clickedOrder g
  /\ gameInProgress g' = gameInProgress g
  /\ (length (timers g') <= length (timers g))%nat
  /\ (map textContent (buttons g') = map textContent (buttons g)
      \/ Forall (fun b => textContent b = None) (buttons g'))
  /\ (messageArea g' = messageArea g
      \/ messageArea g' = MESSAGES.GAME_STARTED).
Proof.
  unfold timeout. destruct (nth_error (timers g) k) as [t|] eqn:E.
  2:{ cbv zeta. repeat split; auto. }
  pose proof (splice1_shorter (timers g) k t E) as L.
  set (g1 := set_timers (splice1 k (timers g)) g).
  assert (T1 : length (timers g) = S (length (timers g1))) by (now rewrite <- L).
  destruct (task t) as [userValue|times i w h]; cbn [resume].
  - set (g2 := set_buttons (map hideNumber (buttons g1)) g1).
    assert (Hhid : Forall (fun b => textContent b = None) (buttons g2)).
    { subst g2; cbn. apply Forall_forall. intros b Hb.
      apply in_map_iff in Hb. now destruct Hb as (b0 & <- & _). }
    assert (Hid : map id (buttons g2) = map id (buttons g))
      by (subst g2 g1; cbn; now apply map_map_same).
    assert (Hco : map color (buttons g2) = map color (buttons g))
      by (subst g2 g1; cbn; now apply map_map_same).
    destruct (buttons g2) as [|b0 bs] eqn:B.
    + cbv zeta. rewrite B in *. repeat split; auto. cbn. lia.
    + rewrite <- B in *.
      destruct (scrambleLoop_frame userValue 0 (offsetWidth env)
                  (offsetHeight env) env rnd g2)
        as (C1 & C2 & C3 & C4 & C5 & C6 & C7 & C8).
      cbv zeta. rewrite C1, C2, C4, C5, C6, Hid, Hco.
      repeat split; auto.
      * destruct C7 as [-> | ->]; [|rewrite length_app]; cbn; lia.
      * right. apply Forall_forall. intros b Hb.
        rewrite Forall_forall in Hhid.
        assert (M : In (textContent b) (map textContent (buttons g2)))
          by (rewrite <- C3; now apply in_map).
        apply in_map_iff in M. destruct M as (b1 & Eb & Hb1).
        rewrite <- Eb. now apply Hhid.
  - destruct (scrambleLoop_frame times (S i) w h env rnd g1)
      as (C1 & C2 & C3 & C4 & C5 & C6 & C7 & C8).
    cbv zeta. rewrite C1, C2, C3, C4, C5, C6.
    repeat split; auto.
    destruct C7 as [-> | ->]; [|rewrite length_app]; cbn; lia.
Qed.

(** X8: timers that fire, however many and in whatever order, never touch
    the round itself: the ids and colours of the buttons, both recorded
    orders and [gameInProgress] stay as they are, no number is revealed (the
    texts are all kept or all blanked), the message is kept or becomes the
    GAME_STARTED message, and the number of pending timers never grows. *)
Theorem timeouts_frame (fires : list (nat * Browser * (nat -> Q)))
    (g : GameManager) :
  let g' := run (map fireAt fires) g in
  map id (buttons g') = map id (buttons g)
  /\ map color (buttons g') = map color (buttons g)
  /\ ogOrder g' = ogOrder g
  /\ clickedOrder g' = clickedOrder g
  /\ gameInProgress g' = gameInProgress g
  /\ (length (timers g') <= length (timers g))%nat
  /\ (map textContent (buttons g') = map textContent (buttons g)
      \/ Forall (fun b => textContent b = None) (buttons g'))
  /\ (messageArea g' = messageArea g
      \/ messageArea g' = MESSAGES.GAME_STARTED).
Proof.
  induction fires as [|[[k env] rnd] fires IH] using rev_ind.
  - cbn. repeat split; auto.
  - rewrite map_app, run_app. cbn [map run fold_left step fireAt].
    cbv zeta in IH.
    destruct IH as (A1 & A2 & A3 & A4 & A5 & A6 & A7 & A8).
    destruct (timeout_keeps k env rnd (run (map fireAt fires) g))
      as (B1 & B2 & B3 & B4 & B5 & B6 & B7 & B8).
    cbv zeta. fold (run (map fireAt fires) g).
    rewrite B1, B2, B3, B4, B5, A1, A2, A3, A4, A5.
    repeat split; auto.
    + lia.
    + destruct B7 as [B7|B7]; [|now right].
      destruct A7 as [A7|A7]; [left; congruence|]. right.
      apply Forall_forall. intros b Hb. rewrite Forall_forall in A7.
      assert (M : In (textContent b)
                    (map textContent (buttons (run (map fireAt fires) g))))
        by (rewrite <- B7; now apply in_map).
      apply in_map_iff in M. destruct M as (b1 & Eb & Hb1).
      rewrite <- Eb. now apply A7.
    + intuition congruence.
Qed.

(** ** More on reachable states *)

Lemma firstn_seq_prefix k n rest :
  seq 0 n = k ++ rest -> k = seq 0 (length k).
Proof.
  intros E.
  assert (L : (length k <= n)%nat).
  { apply (f_equal (@length nat)) in E.
    rewrite length_seq, length_app in E. lia. }
  rewrite <- (firstn_seq_le (length k) 0 n L), E.
  rewrite firstn_app, Nat.sub_diag, firstn_all. simpl.
  now rewrite app_nil_r.
Qed.

(** X9: in every state the page can reach, the buttons are numbered
    0, 1, ..., n-1 in creation order, the recorded original order is exactly
    that sequence, the recorded clicks are 0, 1, ..., k-1 for some k <= n,
    and there is no button unless a game is in progress. *)
Theorem reachable_state_shape (g : GameManager) :
  reachable g ->
  let n := length (buttons g) in
  map id (buttons g) = seq 0 n
  /\ ogOrder g = seq 0 n
  /\ (exists k, (k <= n)%nat /\ clickedOrder g = seq 0 k)
  /\ (gameInProgress g = false -> n = 0%nat).
Proof.
  intros R n. destruct (reachable_invariant g R) as (I1 & I2 & I3 & rest & I4).
  fold n in I3. rewrite I3 in I2.
  split; [exact I3|]. split; [exact I2|]. split.
  - exists (length (clickedOrder g)). split.
    + rewrite I4 in I2. apply (f_equal (@length nat)) in I2.
      rewrite length_app, length_seq in I2. lia.
    + rewrite I2 in I4. now apply (firstn_seq_prefix _ n rest).
  - intros P. subst n. now rewrite (I1 P).
Qed.

Lemma reachable_state_shape_witness :
  let n := length (buttons recall3) in
  map id (buttons recall3) = seq 0 n
  /\ ogOrder recall3 = seq 0 n
  /\ (exists k, (k <= n)%nat /\ clickedOrder recall3 = seq 0 k)
  /\ (gameInProgress recall3 = false -> n = 0%nat).
Proof.
  apply (reachable_state_shape recall3).
  unfold recall3. apply reachable_run. constructor.
Defined.

Lemma Forall_splice1 {A} (P : A -> Prop) l k :
  Forall P l -> Forall P (splice1 k l).
Proof.
  rewrite !Forall_forall. intros H x Hx. eapply H, splice1_In, Hx.
Qed.

Lemma timers_scrambleLoop n i w h env rnd g :
  3 <= n <= 7 ->
  Forall timerOfRound (timers g) ->
  (lessThan (Num (Z.of_nat i)) (Num n) = true -> (i < Z.to_nat n)%nat) ->
  Forall timerOfRound (timers (scrambleLoop (Num n) i w h env rnd g)).
Proof.
  intros Hn H Hi. unfold scrambleLoop.
  destruct (lessThan _ _); cbn; [|exact H].
  apply Forall_app. split; [exact H|]. constructor; [|constructor].
  exists n. split; [exact Hn|]. cbn. auto.
Qed.

(** X10: every timer that is pending in a reachable state belongs to a
    round of [n] buttons with [n] from 3 to 7: it is the display pause of
    [n * 1000] ms, or a pause of exactly 2000 ms that follows pass [i] of
    the scrambling loop with [i < n]. *)
Theorem reachable_timers (g : GameManager) :
  reachable g -> Forall timerOfRound (timers g).
Proof.
  induction 1 as [|g e _ IH]; [constructor|].
  destruct e as [value rnd|k env rnd|i]; cbn [step].
  - destruct (valid_or_invalid (parseInt (trim value))) as [(n & E & Hn)|Hv].
    + rewrite (initGame_valid_eq value rnd g n E Hn).
      assert (T : timers (playGame (Num n)
                   (set_gameInProgress true
                      (displayMessage MESSAGES.START
                         (makeButton (Num n) rnd
                            (if gameInProgress g then cleared g else g)))))
                  = timers g ++ [mkTimer (Num (n * 1000)) (AfterShow (Num n))])
        by (destruct (gameInProgress g); reflexivity).
      rewrite T. apply Forall_app. split; [exact IH|].
      constructor; [|constructor]. exists n. split; [exact Hn|]. cbn. auto.
    + rewrite (initGame_invalid_eq value rnd g Hv).
      destruct (gameInProgress g); exact IH.
  - unfold timeout. destruct (nth_error (timers g) k) as [t|] eqn:E; [|exact IH].
    assert (Ht : timerOfRound t).
    { rewrite Forall_forall in IH. eapply IH, nth_error_In, E. }
    assert (IH' : Forall timerOfRound
                    (timers (set_timers (splice1 k (timers g)) g)))
      by (cbn; now apply Forall_splice1).
    revert IH'. generalize (set_timers (splice1 k (timers g)) g) as g1.
    intros g1 IH1. destruct Ht as (n & Hn & Ht).
    destruct (task t) as [userValue|times j w h]; cbn [resume].
    + destruct Ht as [-> _].
      destruct (buttons (set_buttons (map hideNumber (buttons g1)) g1));
        [exact IH1|].
      apply timers_scrambleLoop; auto. intros _. lia.
    + destruct Ht as (-> & Hj & _).
      apply timers_scrambleLoop; auto.
      cbn. intros Hlt. apply Z.ltb_lt in Hlt. lia.
  - destruct (click_keeps i g) as (_ & _ & _ & _ & _ & _ & T & _).
    cbv zeta in T. now rewrite T.
Qed.

Lemma reachable_timers_witness :
  Forall timerOfRound (timers restarted).
Proof.
  apply (reachable_timers restarted).
  unfold restarted. apply reachable_run. constructor.
Defined.

Lemma knownMessage_rejection x : knownMessage (rejection x).
Proof. destruct x; cbn; auto 10. Qed.

(** X11: the message area of a reachable state shows nothing or one of
    the six texts of [MESSAGES]. *)
Theorem reachable_message (g : GameManager) :
  reachable g -> knownMessage (messageArea g).
Proof.
  induction 1 as [|g e _ IH]; [now left|].
  destruct e as [value rnd|k env rnd|i]; cbn [step].
  - destruct (valid_or_invalid (parseInt (trim value))) as [(n & E & Hn)|Hv].
    + rewrite (initGame_valid_eq value rnd g n E Hn). cbn. auto 10.
    + rewrite (initGame_invalid_eq value rnd g Hv). cbn.
      apply knownMessage_rejection.
  - destruct (timeout_keeps k env rnd g) as (_ & _ & _ & _ & _ & _ & _ & M).
    cbv zeta in M. destruct M as [-> | ->]; [exact IH | cbn; auto 10].
  - destruct (click_keeps i g) as (_ & _ & _ & _ & _ & _ & _ & _ & M).
    cbv zeta in M. destruct M as [-> | [-> | ->]];
      [exact IH | cbn; auto 10 | cbn; auto 10].
Qed.

Lemma reachable_message_witness : knownMessage (messageArea recall3).
Proof.
  apply (reachable_message recall3).
  unfold recall3. apply reachable_run. constructor.
Defined.

(** ** More on the guessing game *)

Lemma firesOf_app es1 es2 : firesOf (es1 ++ es2) = firesOf es1 ++ firesOf es2.
Proof.
  induction es1 as [|[f|i] es1 IH]; simpl; [reflexivity| |exact IH].
  now rewrite IH.
Qed.

(** From the start of a round up to its last scrambling pass no button has
    a handler. *)
Lemma before_recall_noHandlers created n fires :
  3 <= n <= 7 ->
  length created = Z.to_nat n ->
  Forall fresh created ->
  (length fires <= Z.to_nat n)%nat ->
  noHandlers
    (run (map fire fires)
       (mkGame created MESSAGES.START true [] (seq 0 (Z.to_nat n))
          [mkTimer (Num (n * 1000)) (AfterShow (Num n))])).
Proof.
  intros Hn Hlen Hfresh L.
  set (g0 := mkGame created MESSAGES.START true [] (seq 0 (Z.to_nat n))
               [mkTimer (Num (n * 1000)) (AfterShow (Num n))]).
  destruct (length fires) as [|j] eqn:Ej.
  - destruct fires; [|discriminate]. cbn. unfold noHandlers; cbn.
    eapply Forall_impl; [|exact Hfresh].
    intros b (_ & _ & Ho & Hl). unfold handlers. now rewrite Ho.
  - destruct (nth_error fires j) as [[env r]|] eqn:E;
      [|apply nth_error_None in E; lia].
    assert (Hj : (j < Z.to_nat n)%nat) by lia.
    destruct (fires_scrambling g0 n Hn Hlen eq_refl fires j env r Hj E)
      as (env0 & r0 & _ & Hrun).
    rewrite <- Ej, firstn_all in Hrun. rewrite Hrun.
    unfold noHandlers, scrambling; cbn [buttons].
    apply (relocate_handlers env _ _ r (fun hs => hs = [])).
    now apply fresh_noHandlers.
Qed.

(** X12: clicks during the display pause and the scrambling are ignored.
    In a round started with a valid input from a reachable state with no
    timer pending, as long as at most [n] of its timers have fired, button
    clicks mixed in anywhere between the timers change nothing: the state
    is the one that the timers alone produce, and no button has a handler
    in it. *)
Theorem clicks_ignored_before_recall (g : GameManager) (value : jsstring)
    (rnd : nat -> Q) (n : Z) (es : list (Browser * (nat -> Q) + nat)) :
  reachable g -> timers g = [] ->
  parseInt (trim value) = Num n -> 3 <= n <= 7 ->
  (length (firesOf es) <= Z.to_nat n)%nat ->
  run (Go value rnd :: map roundEvent es) g
  = run (Go value rnd :: map fire (firesOf es)) g
  /\ noHandlers (run (Go value rnd :: map roundEvent es) g).
Proof.
  intros R T E Hn.
  destruct (initGame_valid_state value rnd g n (reachable_invariant g R) E Hn)
    as (created & Eg & _ & _ & Hlen & Hfresh).
  rewrite T in Eg; simpl in Eg.
  cbn [run fold_left step]. rewrite Eg.
  change (fold_left step ?l ?s) with (run l s).
  induction es as [|e es IH] using rev_ind; intros L.
  - split; [reflexivity|].
    apply (before_recall_noHandlers created n []); auto; simpl; lia.
  - rewrite firesOf_app, length_app in L.
    destruct (IH ltac:(lia)) as [IH1 IH2].
    rewrite firesOf_app, !map_app, !run_app, IH1.
    assert (K : run (map roundEvent [e])
                  (run (map fire (firesOf es))
                     (mkGame created MESSAGES.START true []
                        (seq 0 (Z.to_nat n))
                        [mkTimer (Num (n * 1000)) (AfterShow (Num n))]))
                = run (map fire (firesOf [e]))
                    (run (map fire (firesOf es))
                       (mkGame created MESSAGES.START true []
                          (seq 0 (Z.to_nat n))
                          [mkTimer (Num (n * 1000)) (AfterShow (Num n))]))).
    { destruct e as [f|i]; [reflexivity|]. cbn [firesOf map run fold_left step roundEvent].
      apply click_noHandlers. now rewrite <- IH1. }
    rewrite K. split; [reflexivity|].
    rewrite <- run_app, <- map_app, <- firesOf_app.
    apply before_recall_noHandlers; auto.
    rewrite firesOf_app, length_app. exact L.
Qed.

Lemma clicks_ignored_before_recall_witness :
  let es := [inr 0%nat; inl (desktop, half); inr 2%nat; inr 1%nat;
             inl (desktop, half); inr 5%nat] in
  run (Go (str "3") half :: map roundEvent es) newGameManager
  = run (Go (str "3") half :: map fire (firesOf es)) newGameManager
  /\ noHandlers (run (Go (str "3") half :: map roundEvent es) newGameManager).
Proof.
  intros es.
  apply (clicks_ignored_before_recall newGameManager (str "3") half 3 es).
  - constructor.
  - reflexivity.
  - reflexivity.
  - lia.
  - vm_compute. lia.
Defined.

Lemma attachedOnce_handlers b : attachedOnce b -> handlers b = [CheckClick].
Proof. intros [Ho Hl]. unfold handlers. now rewrite Ho, Hl. Qed.

Lemma revealed_again bs :
  map (set_onclick None) (map showNumber
    (map (set_onclick None) (map showNumber bs)))
  = map (set_onclick None) (map showNumber bs).
Proof. rewrite !map_map. apply map_ext. now intros []. Qed.

(** X13: in the guessing game, with the first [k] ids recorded, a click on
    a button other than the one with id [k] shows the LOSE message and
    reveals the number of every button; the record is left as it is and
    every button keeps its listener.  This includes any click after the
    record is complete ([k = n]).  A second click on the same button changes
    nothing more. *)
Theorem wrong_click_loses (g : GameManager) (i k : nat) :
  ogOrder g = seq 0 (length (buttons g)) ->
  map id (buttons g) = seq 0 (length (buttons g)) ->
  clickedOrder g = seq 0 k ->
  Forall attachedOnce (buttons g) ->
  (i < length (buttons g))%nat -> i <> k ->
  let g' := click i g in
  messageArea g' = MESSAGES.LOSE
  /\ Forall numberVisible (buttons g')
  /\ Forall attachedOnce (buttons g')
  /\ clickedOrder g' = clickedOrder g
  /\ ogOrder g' = ogOrder g
  /\ click i g' = g'.
Proof.
  intros Ho Hi Hc Ha Hlt Hne.
  destruct (nth_error (buttons g) i) as [b|] eqn:Eb;
    [|apply nth_error_None in Eb; lia].
  assert (Ib : id b = i).
  { pose proof (nth_error_map id i (buttons g)) as M.
    rewrite Hi, nth_error_seq, Eb in M.
    replace (i <? length (buttons g))%nat with true in M
      by (symmetry; apply Nat.ltb_lt; lia).
    simpl in M. congruence. }
  assert (Hs : sameId (id b)
                 (nth_error (ogOrder g) (length (clickedOrder g))) = false).
  { rewrite Ho, Hc, length_seq, nth_error_seq, Ib.
    destruct (k <? length (buttons g))%nat; [|reflexivity].
    simpl. now apply Nat.eqb_neq. }
  assert (Hb : handlers b = [CheckClick]).
  { apply attachedOnce_handlers. rewrite Forall_forall in Ha.
    eapply Ha, nth_error_In, Eb. }
  assert (E1 : click i g
               = mkGame (map (set_onclick None) (map showNumber (buttons g)))
                        MESSAGES.LOSE (gameInProgress g) (clickedOrder g)
                        (ogOrder g) (timers g)).
  { unfold click. rewrite Eb, Hb. cbn [fold_left invoke].
    unfold checkClick. rewrite Eb, Hs. reflexivity. }
  intros g'. subst g'. rewrite E1. cbn [messageArea buttons clickedOrder ogOrder].
  assert (Hvis : Forall numberVisible
                   (map (set_onclick None) (map showNumber (buttons g)))).
  { rewrite map_map. apply Forall_forall. intros x Hx.
    apply in_map_iff in Hx. now destruct Hx as (x0 & <- & _). }
  assert (Hatt : Forall attachedOnce
                   (map (set_onclick None) (map showNumber (buttons g)))).
  { rewrite map_map. apply Forall_forall. intros x Hx.
    apply in_map_iff in Hx. destruct Hx as (x0 & <- & Hx0).
    rewrite Forall_forall in Ha. destruct (Ha x0 Hx0) as [_ Hl].
    split; [reflexivity | exact Hl]. }
  repeat split; auto.
  (* the second click *)
  set (bs' := map (set_onclick None) (map showNumber (buttons g))) in *.
  destruct (nth_error bs' i) as [b'|] eqn:Eb'.
  2:{ apply nth_error_None in Eb'. subst bs'.
      rewrite !length_map in Eb'. lia. }
  assert (Ib' : id b' = i).
  { subst bs'. rewrite map_map, nth_error_map, Eb in Eb'.
    simpl in Eb'. injection Eb' as <-. exact Ib. }
  assert (Hb' : handlers b' = [CheckClick]).
  { apply attachedOnce_handlers. rewrite Forall_forall in Hatt.
    eapply Hatt, nth_error_In, Eb'. }
  unfold click. cbn [buttons]. rewrite Eb', Hb'. cbn [fold_left invoke].
  unfold checkClick. cbn [buttons ogOrder clickedOrder]. rewrite Eb', Ib'.
  rewrite Ib in Hs. rewrite Hs. cbn. subst bs'.
  now rewrite revealed_again.
Qed.

Lemma wrong_click_loses_witness :
  let g' := click 2 recall3 in
  messageArea g' = MESSAGES.LOSE
  /\ Forall numberVisible (buttons g')
  /\ Forall attachedOnce (buttons g')
  /\ clickedOrder g' = clickedOrder recall3
  /\ ogOrder g' = ogOrder recall3
  /\ click 2 g' = g'.
Proof.
  apply (wrong_click_loses recall3 2 0).
  - reflexivity.
  - reflexivity.
  - reflexivity.
  - vm_compute. repeat constructor.
  - vm_compute. lia.
  - discriminate.
Defined.

(** ** Whole rounds *)

(** The round that [initGame] has started is at the guessing game once its
    [n + 1] timers have fired. *)
Lemma round_reaches_recall created n fires :
  3 <= n <= 7 ->
  map id created = seq 0 (Z.to_nat n) ->
  length created = Z.to_nat n ->
  Forall fresh created ->
  length fires = S (Z.to_nat n) ->
  let g0 := mkGame created MESSAGES.START true [] (seq 0 (Z.to_nat n))
                   [mkTimer (Num (n * 1000)) (AfterShow (Num n))] in
  let gr := run (map fire fires) g0 in
  recallReady gr
  /\ length (buttons gr) = Z.to_nat n
  /\ messageArea gr = MESSAGES.GAME_STARTED
  /\ timers gr = []
  /\ gameInProgress gr = true.
Proof.
  intros Hn Hid Hlen Hfresh L g0 gr.
  destruct (nth_error fires (Z.to_nat n)) as [[envl rl]|] eqn:El;
    [|apply nth_error_None in El; lia].
  destruct (nth_error fires (Z.to_nat n - 1)) as [[envp rp]|] eqn:Ep;
    [|apply nth_error_None in Ep; lia].
  assert (Hp : (Z.to_nat n - 1 < Z.to_nat n)%nat) by lia.
  destruct (fires_scrambling g0 n Hn Hlen eq_refl fires (Z.to_nat n - 1)
              envp rp Hp Ep) as (env0 & r0 & _ & Hrun).
  replace (S (Z.to_nat n - 1)) with (Z.to_nat n) in Hrun by lia.
  assert (Er : gr = memoryTest
                 (set_timers []
                    (scrambling g0 n (Z.to_nat n - 1) (offsetWidth env0)
                                (offsetHeight env0) envp rp))).
  { subst gr. rewrite <- (firstn_all fires) at 1. rewrite L.
    rewrite (firstn_snoc fires (Z.to_nat n) (envl, rl) El), map_app, run_app.
    rewrite Hrun. cbn [map run fold_left step fire fst snd].
    apply (last_fire g0 n Hn Hlen). lia. }
  assert (Hb : buttons gr
               = map (fun button =>
                        addEventListener CheckClick (set_onclick None button))
                     (relocate envp (offsetWidth env0) (offsetHeight env0) rp 0
                               (map hideNumber created)))
    by (rewrite Er; reflexivity).
  assert (Hl : length (buttons gr) = Z.to_nat n)
    by (rewrite Hb, length_map, relocate_length, length_map; exact Hlen).
  split.
  { unfold recallReady. rewrite Hl.
    split; [rewrite Er; reflexivity|]. split.
    { rewrite Hb. rewrite map_id_map by reflexivity. rewrite map_id_relocate.
      rewrite map_id_map by reflexivity. exact Hid. }
    split; [rewrite Er; reflexivity|].
    rewrite Hb. apply memoryTest_handlers.
    apply (relocate_handlers envp _ _ rp (fun hs => hs = [])).
    now apply fresh_noHandlers. }
  split; [exact Hl|]. rewrite Er. repeat split.
Qed.

(** X14: a whole round.  From a reachable state with no timer pending, a
    valid submission of [n], the [n + 1] timers of the round and then clicks
    on the buttons with ids 0, 1, ..., n-1 in this order end with the WIN
    message, every number shown and the record equal to the original
    order. *)
Theorem full_round_wins (g : GameManager) (value : jsstring)
    (rnd : nat -> Q) (n : Z) (fires : list (Browser * (nat -> Q))) :
  reachable g -> timers g = [] ->
  parseInt (trim value) = Num n -> 3 <= n <= 7 ->
  length fires = S (Z.to_nat n) ->
  let g' := run (Go value rnd :: map fire fires
                   ++ map Click (seq 0 (Z.to_nat n))) g in
  messageArea g' = MESSAGES.WIN
  /\ clickedOrder g' = seq 0 (Z.to_nat n)
  /\ ogOrder g' = seq 0 (Z.to_nat n)
  /\ length (buttons g') = Z.to_nat n
  /\ Forall numberVisible (buttons g').
Proof.
  intros R T E Hn L g'.
  destruct (initGame_valid_state value rnd g n (reachable_invariant g R) E Hn)
    as (created & Eg & _ & Hid & Hlen & Hfresh).
  rewrite T in Eg; simpl in Eg.
  destruct (round_reaches_recall created n fires Hn Hid Hlen Hfresh L)
    as (Hr & Hl & _ & _ & _).
  assert (Eg' : g' = run (map Click (seq 0 (Z.to_nat n)))
                   (run (map fire fires)
                      (mkGame created MESSAGES.START true []
                         (seq 0 (Z.to_nat n))
                         [mkTimer (Num (n * 1000)) (AfterShow (Num n))]))).
  { subst g'. cbn [run fold_left step]. rewrite Eg.
    change (fold_left step ?es ?s) with (run es s). apply run_app. }
  revert Hr Hl Eg'.
  generalize (run (map fire fires)
                (mkGame created MESSAGES.START true [] (seq 0 (Z.to_nat n))
                   [mkTimer (Num (n * 1000)) (AfterShow (Num n))])) as gr.
  intros gr Hr Hl Eg'. pose proof Hr as (Ho & _).
  assert (Hle : (Z.to_nat n <= length (buttons gr))%nat) by lia.
  destruct (clicks_in_order gr Hr (Z.to_nat n) Hle)
    as (Ko & Kl & Ki & Kc & Kh & Kv & Km).
  rewrite <- Eg' in Ko, Kl, Ki, Kc, Kh, Kv, Km. rewrite Hl in *.
  rewrite Nat.eqb_refl in Km.
  replace (Nat.ltb 0 (Z.to_nat n)) with true in Km
    by (symmetry; apply Nat.ltb_lt; lia).
  split; [exact Km|]. split; [exact Kc|].
  split; [now rewrite Ko, Ho|]. split; [exact Kl|].
  apply Forall_forall. intros b Hb.
  destruct (In_nth_error _ _ Hb) as (j & Hj).
  apply (Kv j b); [|exact Hj].
  rewrite <- Kl. apply nth_error_Some. now rewrite Hj.
Qed.

Lemma full_round_wins_witness :
  let fires := [(desktop, half); (desktop, half); (desktop, half);
                (desktop, half)] in
  let g' := run (Go (str "3") half :: map fire fires
                   ++ map Click (seq 0 (Z.to_nat 3))) newGameManager in
  messageArea g' = MESSAGES.WIN
  /\ clickedOrder g' = seq 0 (Z.to_nat 3)
  /\ ogOrder g' = seq 0 (Z.to_nat 3)
  /\ length (buttons g') = Z.to_nat 3
  /\ Forall numberVisible (buttons g').
Proof.
  intros fires.
  apply (full_round_wins newGameManager (str "3") half 3 fires).
  - constructor.
  - reflexivity.
  - reflexivity.
  - lia.
  - reflexivity.
Defined.

Lemma nth_error_last {A} (l : list A) x :
  nth_error (l ++ [x]) (length l) = Some x.
Proof. rewrite nth_error_app2, Nat.sub_diag by lia. reflexivity. Qed.

Lemma splice1_last {A} (l : list A) x : splice1 (length l) (l ++ [x]) = l.
Proof.
  unfold splice1.
  rewrite skipn_all2 by (rewrite length_app; simpl; lia).
  rewrite firstn_app, Nat.sub_diag, firstn_all. simpl.
  now rewrite !app_nil_r.
Qed.

(** X15: a rejected submission during the display pause ends the round.
    From any state: after a valid submission, a rejected one removes the
    buttons but leaves the timer of the round; when that timer (the last one
    registered) fires, [scrambleButtons] finds no button and the coroutine
    stops.  Then there is no button, both orders are empty,
    [gameInProgress] is false, the message of the validator is shown, and
    exactly the timers that were pending before the round are pending. *)
Theorem invalid_restart_stops_round (g : GameManager)
    (value1 value2 : jsstring) (rnd1 rnd2 rnd : nat -> Q) (n : Z)
    (env : Browser) :
  parseInt (trim value1) = Num n -> 3 <= n <= 7 ->
  invalid (parseInt (trim value2)) ->
  run [Go value1 rnd1; Go value2 rnd2;
       Timeout (length (timers g)) env rnd] g
  = mkGame [] (rejection (parseInt (trim value2))) false [] [] (timers g).
Proof.
  intros E Hn Hv.
  cbn [run fold_left step].
  rewrite (initGame_valid_eq value1 rnd1 g n E Hn).
  rewrite (initGame_invalid_eq value2 rnd2 _ Hv).
  assert (T : forall g1, timers g1 = timers g ->
            timeout (length (timers g)) env rnd
              (displayMessage (rejection (parseInt (trim value2)))
                 (if gameInProgress
                       (playGame (Num n)
                          (set_gameInProgress true
                             (displayMessage MESSAGES.START
                                (makeButton (Num n) rnd1 g1))))
                  then cleared
                         (playGame (Num n)
                            (set_gameInProgress true
                               (displayMessage MESSAGES.START
                                  (makeButton (Num n) rnd1 g1))))
                  else playGame (Num n)
                         (set_gameInProgress true
                            (displayMessage MESSAGES.START
                               (makeButton (Num n) rnd1 g1)))))
            = mkGame [] (rejection (parseInt (trim value2))) false [] []
                     (timers g)).
  { intros g1 Ht. unfold timeout. cbn. rewrite Ht, nth_error_last.
    cbn. now rewrite splice1_last. }
  apply T. destruct (gameInProgress g); reflexivity.
Qed.

Lemma invalid_restart_stops_round_witness :
  run [Go (str "4") half; Go (str "abc") half;
       Timeout (length (timers restarted)) desktop half] restarted
  = mkGame [] (rejection (parseInt (trim (str "abc")))) false [] []
           (timers restarted).
Proof.
  apply (invalid_restart_stops_round restarted (str "4") (str "abc")
           half half half 4 desktop).
  - reflexivity.
  - lia.
  - left. reflexivity.
Defined.

(** ** Hexadecimal input *)

Lemma noHexDigitAhead_trimEnd s :
  noHexDigitAhead s -> noHexDigitAhead (trimEnd s).
Proof.
  destruct (trimEnd_prefix s) as [t Ht].
  destruct (trimEnd s) as [|c r]; [easy|].
  rewrite Ht; simpl; easy.
Qed.

Lemma radixDigit16_digit d : 0 <= d <= 9 -> radixDigit 16 (digit d) = Some d.
Proof.
  intros Hd. unfold digit.
  assert (C : d = 0 \/ d = 1 \/ d = 2 \/ d = 3 \/ d = 4 \/ d = 5 \/ d = 6
              \/ d = 7 \/ d = 8 \/ d = 9) by lia.
  repeat (destruct C as [C|C]; [subst; reflexivity|]); subst; reflexivity.
Qed.

Lemma parseInt_hexadecimal x d r :
  x = 120%N \/ x = 88%N -> 1 <= d <= 9 -> noHexDigitAhead r ->
  parseInt (48%N :: x :: digit d :: r) = Num d.
Proof.
  intros Hx Hd Hr. unfold parseInt.
  rewrite trimStart_keep by reflexivity.
  change (stripSign (48%N :: x :: digit d :: r))
    with (1, 48%N :: x :: digit d :: r). cbv beta iota.
  assert (X : stripPrefix (48%N :: x :: digit d :: r) = (16, digit d :: r))
    by (destruct Hx as [-> | ->]; reflexivity).
  rewrite X. cbn [digitPrefix].
  rewrite (radixDigit16_digit d ltac:(lia)).
  assert (P : digitPrefix 16 r = []).
  { destruct r as [|c r']; [reflexivity|]. cbn [digitPrefix].
    unfold noHexDigitAhead in Hr. now rewrite Hr. }
  rewrite P. unfold mathInt. cbn [fold_left]. f_equal. lia.
Qed.

(** X16: [parseInt] is called without a radix, so a field that holds
    [0x] or [0X] and one digit from 3 to 7 (such as 0x5) is read in base 16
    and accepted: a round with that many buttons starts. *)
Theorem hexadecimal_input_accepted (ws : jsstring) (x : N) (d : Z)
    (rest : jsstring) (rnd : nat -> Q) (g : GameManager) :
  allWhiteSpace ws -> x = 120%N \/ x = 88%N -> 3 <= d <= 7 ->
  noHexDigitAhead rest -> reachable g ->
  let value := hexadecimal ws x d rest in
  let g' := initGame value rnd g in
  parseInt (trim value) = Num d
  /\ gameInProgress g' = true
  /\ messageArea g' = MESSAGES.START
  /\ map id (buttons g') = seq 0 (Z.to_nat d)
  /\ ogOrder g' = seq 0 (Z.to_nat d).
Proof.
  intros Hws Hx Hd Hr R value g'.
  assert (T : trim value = 48%N :: x :: digit d :: trimEnd rest).
  { unfold value, trim, hexadecimal. rewrite trimStart_skip by exact Hws.
    rewrite trimStart_keep by reflexivity.
    apply (trimEnd_app [48%N; x] (digit d) rest).
    apply isWhiteSpace_digit. lia. }
  assert (E : parseInt (trim value) = Num d).
  { rewrite T. apply parseInt_hexadecimal; auto using noHexDigitAhead_trimEnd.
    lia. }
  split; [exact E|].
  destruct (initGame_valid_state value rnd g d (reachable_invariant g R) E Hd)
    as (created & Eg & _ & Hid & _).
  subst g'. rewrite Eg. cbn. repeat split; auto.
Qed.

Lemma hexadecimal_input_accepted_witness :
  let value := hexadecimal [] 120%N 5 [] in
  let g' := initGame value half newGameManager in
  value = str "0x5"
  /\ parseInt (trim value) = Num 5
  /\ gameInProgress g' = true
  /\ messageArea g' = MESSAGES.START
  /\ map id (buttons g') = seq 0 (Z.to_nat 5)
  /\ ogOrder g' = seq 0 (Z.to_nat 5).
Proof.
  split; [reflexivity|].
  apply (hexadecimal_input_accepted [] 120%N 5 [] half newGameManager).
  - constructor.
  - now left.
  - lia.
  - exact I.
  - constructor.
Defined.

(** ** The [onclick] property *)

Lemma Forall_update {A} (P : A -> Prop) (f : A -> A) (l : list A) :
  (forall x, P x -> P (f x)) -> Forall P l ->
  forall i, Forall P (update i f l).
Proof.
  intros Hf H. induction H as [|x l Hx Hl IH]; intros [|i]; simpl;
    constructor; auto.
Qed.

Lemma Forall_relocate (P : GameButton -> Prop) env w h rnd bs :
  (forall x y b, P b -> P (setLocation x y b)) -> Forall P bs ->
  forall k, Forall P (relocate env w h rnd k bs).
Proof.
  intros Hf H. induction H as [|b bs Hb Hbs IH]; intros k; cbn [relocate];
    constructor; auto.
Qed.

Lemma Forall_map_same {A} (P : A -> Prop) (f : A -> A) (l : list A) :
  (forall x, P x -> P (f x)) -> Forall P l -> Forall P (map f l).
Proof. intros Hf H. induction H; simpl; constructor; auto. Qed.

Lemma onclick_scrambleLoop times i w h env rnd g :
  Forall (fun b => onclick b = None) (buttons g) ->
  Forall (fun b => onclick b = None)
         (buttons (scrambleLoop times i w h env rnd g)).
Proof.
  intros H. unfold scrambleLoop. destruct (lessThan _ _); cbn.
  - apply Forall_relocate; auto.
  - apply Forall_forall. intros b Hb. apply in_map_iff in Hb.
    now destruct Hb as (b0 & <- & _).
Qed.

Lemma onclick_checkClick i g :
  Forall (fun b => onclick b = None) (buttons g) ->
  Forall (fun b => onclick b = None) (buttons (checkClick i g)).
Proof.
  intros H. unfold checkClick.
  destruct (nth_error (buttons g) i) as [button|]; [|exact H].
  destruct (sameId _ _).
  - cbn [set_buttons set_clickedOrder buttons clickedOrder ogOrder].
    destruct (Nat.eqb _ _); cbn; apply Forall_update; auto.
  - cbn. apply Forall_forall. intros b Hb. apply in_map_iff in Hb.
    now destruct Hb as (b0 & <- & _).
Qed.

(** X17: the script never installs an [onclick] handler: in every
    reachable state the [onclick] property of every button is [null].  The
    assignments [onclick = null] of [memoryTest] and [checkClick] therefore
    never change a button; the click handlers live in the listener list
    only. *)
Theorem reachable_onclick_null (g : GameManager) :
  reachable g ->
  Forall (fun b => onclick b = None) (buttons g)
  /\ map (set_onclick None) (buttons g) = buttons g.
Proof.
  intros R.
  assert (H : Forall (fun b => onclick b = None) (buttons g)).
  { induction R as [|g e R IH]; [constructor|].
    destruct e as [value rnd|k env rnd|i]; cbn [step].
    - destruct (valid_or_invalid (parseInt (trim value))) as [(n & E & Hn)|Hv].
      + destruct (initGame_valid_state value rnd g n
                    (reachable_invariant g R) E Hn)
          as (created & -> & _ & _ & _ & Hfresh).
        cbn. eapply Forall_impl; [|exact Hfresh]. now intros b (_ & _ & Ho & _).
      + rewrite (initGame_invalid_eq value rnd g Hv).
        destruct (gameInProgress g); [constructor | exact IH].
    - unfold timeout.
      destruct (nth_error (timers g) k) as [t|]; [|exact IH].
      assert (IH' : Forall (fun b => onclick b = None)
                      (buttons (set_timers (splice1 k (timers g)) g)))
        by exact IH.
      revert IH'. generalize (set_timers (splice1 k (timers g)) g) as g1.
      intros g1 IH1. destruct (task t) as [userValue|times j w h]; cbn [resume].
      + assert (IH2 : Forall (fun b => onclick b = None)
                        (buttons (set_buttons (map hideNumber (buttons g1)) g1)))
          by (cbn; apply Forall_map_same; auto).
        destruct (buttons (set_buttons (map hideNumber (buttons g1)) g1))
          eqn:B; [now rewrite B|].
        apply onclick_scrambleLoop. now rewrite B.
      + now apply onclick_scrambleLoop.
    - unfold click. destruct (nth_error (buttons g) i) as [b|]; [|exact IH].
      generalize (handlers b) as hs. intros hs. clear R. revert g IH.
      induction hs as [|[] hs IHhs]; intros g IH; [exact IH|].
      cbn [fold_left invoke]. apply IHhs. now apply onclick_checkClick. }
  split; [exact H|].
  induction H as [|b bs Hb _ IH]; [reflexivity|].
  cbn [map]. rewrite IH. f_equal. destruct b; cbn in *. now subst.
Qed.

Lemma reachable_onclick_null_witness :
  Forall (fun b => onclick b = None) (buttons recall3)
  /\ map (set_onclick None) (buttons recall3) = buttons recall3.
Proof.
  apply (reachable_onclick_null recall3).
  unfold recall3. apply reachable_run. constructor.
Defined.
